(** * Sinhala accounting bot: the chunker and the query transliterator

    A shallow embedding of [utils/document_processor.py] and
    [utils/sinhala_transliterator.py].  A Python [str] is a sequence of
    Unicode code points, so a string is a [list Z] here and [len] counts
    code points, not bytes.  String literals are written in UTF-8 and
    decoded by [u8]. *)

From Stdlib Require Import String Ascii.
From Stdlib Require Import ZArith List Bool Lia QArith.
From Stdlib Require DecimalString DecimalNat Finite.
Import ListNotations.
Local Open Scope Z_scope.

(** ** Python strings *)

Module PyStr.

Abbreviation char := Z (only parsing).
Abbreviation str := (list Z) (only parsing).

(** UTF-8 decoding of a source literal, one byte at a time: [pending]
    continuation bytes are still owed to the code point under assembly. *)
Fixpoint utf8_decode (pending : nat) (acc : Z) (bytes : list Z) : str :=
  match bytes with
  | [] => []
  | b :: rest =>
      match pending with
      | O =>
          if b <? 0x80 then b :: utf8_decode 0 0 rest
          else if b <? 0xE0 then utf8_decode 1 (Z.land b 0x1F) rest
          else if b <? 0xF0 then utf8_decode 2 (Z.land b 0x0F) rest
          else utf8_decode 3 (Z.land b 0x07) rest
      | S O => (acc * 64 + Z.land b 0x3F) :: utf8_decode 0 0 rest
      | S k => utf8_decode k (acc * 64 + Z.land b 0x3F) rest
      end
  end.

Definition bytes_of (s : string) : list Z :=
  map (fun a => Z.of_nat (nat_of_ascii a)) (list_ascii_of_string s).

Definition u8 (s : string) : str := utf8_decode 0 0 (bytes_of s).
Arguments u8 s%_string.

(** [len(s)] *)
Definition len {A} (s : list A) : Z := Z.of_nat (length s).

(** Truthiness of a string or list: non-empty. *)
Definition truthy {A} (s : list A) : bool :=
  match s with [] => false | _ :: _ => true end.

Fixpoint str_eqb (a b : str) : bool :=
  match a, b with
  | [], [] => true
  | x :: a', y :: b' => (x =? y) && str_eqb a' b'
  | _, _ => false
  end.

Definition in_range (lo hi c : Z) : bool := (lo <=? c) && (c <=? hi).

(** [str.isspace] on one character, which is also what [\s] matches in a
    [str] pattern and what [str.split()] and [str.strip()] cut on. *)
Definition isspace (c : char) : bool :=
  in_range 0x09 0x0D c || in_range 0x1C 0x20 c || (c =? 0x85) || (c =? 0xA0)
  || (c =? 0x1680) || in_range 0x2000 0x200A c || in_range 0x2028 0x2029 c
  || (c =? 0x202F) || (c =? 0x205F) || (c =? 0x3000).

Fixpoint lstrip (s : str) : str :=
  match s with
  | [] => []
  | c :: r => if isspace c then lstrip r else s
  end.

Definition rstrip (s : str) : str := rev (lstrip (rev s)).

(** [s.strip()] *)
Definition strip (s : str) : str := rstrip (lstrip s).

(** [s.split()]: the maximal runs of non-whitespace characters.  [cur] is
    the word being read. *)
Fixpoint split_from (cur : str) (s : str) : list str :=
  match s with
  | [] => if truthy cur then [cur] else []
  | c :: r =>
      if isspace c
      then (if truthy cur then cur :: split_from [] r else split_from [] r)
      else split_from (cur ++ [c]) r
  end.

Definition split (s : str) : list str := split_from [] s.

(** [re.split] on a one-character class: every piece between two
    delimiters, the empty ones included. *)
Fixpoint re_split_from (delim : char -> bool) (cur : str) (s : str) : list str :=
  match s with
  | [] => [cur]
  | c :: r =>
      if delim c then cur :: re_split_from delim [] r
      else re_split_from delim (cur ++ [c]) r
  end.

Definition re_split (delim : char -> bool) (s : str) : list str :=
  re_split_from delim [] s.

(** [sep.join(parts)] *)
Fixpoint join (sep : str) (parts : list str) : str :=
  match parts with
  | [] => []
  | [p] => p
  | p :: rest => p ++ sep ++ join sep rest
  end.

Fixpoint startswith (p s : str) : bool :=
  match p, s with
  | [], _ => true
  | _ :: _, [] => false
  | x :: p', y :: s' => (x =? y) && startswith p' s'
  end.

(** [p in s] for strings: [p] occurs somewhere in [s]. *)
Fixpoint contains (p s : str) : bool :=
  startswith p s ||
  match s with
  | [] => false
  | _ :: r => contains p r
  end.

(** [re.sub(pattern, repl, s)] for a pattern that never matches the empty
    string.  [m s] is the length of the match of the pattern at the head of
    [s], if there is one; the scan is leftmost and does not overlap: after a
    match of [n] characters the next [n - 1] characters are skipped. *)
Fixpoint re_sub_from (m : str -> option nat) (repl : str) (skip : nat) (s : str)
  : str :=
  match s with
  | [] => []
  | c :: r =>
      match skip with
      | S k => re_sub_from m repl k r
      | O =>
          match m s with
          | Some (S n) => repl ++ re_sub_from m repl n r
          | _ => c :: re_sub_from m repl 0 r
          end
      end
  end.

Definition re_sub (m : str -> option nat) (repl s : str) : str :=
  re_sub_from m repl 0 s.

(** [s.replace(old, new)]: every occurrence, leftmost first, not
    overlapping; an empty [old] matches between any two characters. *)
Definition replace (old new s : str) : str :=
  match old with
  | [] => new ++ flat_map (fun c => c :: new) s
  | _ :: _ =>
      re_sub (fun t => if startswith old t then Some (length old) else None) new s
  end.

(** [l[i:]] with Python's rule for a negative start. *)
Definition slice_from {A} (i : Z) (l : list A) : list A :=
  let start := if i <? 0 then Z.max (len l + i) 0 else Z.min i (len l) in
  skipn (Z.to_nat start) l.

(** The class [[\u0D80-\u0DFF]]: the Sinhala block. *)
Definition is_sinhala (c : char) : bool := in_range 0x0D80 0x0DFF c.

(** [len(re.findall(cls, s))] for a one-character class. *)
Definition count_class (cls : char -> bool) (s : str) : Z :=
  len (filter cls s).

(** [p] occurs in [s]: the meaning of [p in s]. *)
Definition occurs_in (p s : str) : Prop := exists pre post, s = pre ++ p ++ post.

(** [str(n)] for an int that is not negative: its decimal digits. *)
Definition str_of_nat (n : nat) : str :=
  bytes_of (DecimalString.NilEmpty.string_of_uint (Nat.to_uint n)).

(** [list(range(0, n, step))] for a positive [step]. *)
Definition range_by (n step : nat) : list nat :=
  map (fun j => j * step)%nat (seq 0 ((n + step - 1) / step)).

(** [l[i:i+size]] for an index that is not negative. *)
Definition window {A} (i size : nat) (l : list A) : list A :=
  firstn size (skipn i l).

End PyStr.
Import PyStr.

(** ** utils/document_processor.py *)

Module DocumentProcessor.

Record t := { chunk_size : Z; chunk_overlap : Z }.

(** [__init__(self, chunk_size=1000, chunk_overlap=200)] *)
Definition init : t := {| chunk_size := 1000; chunk_overlap := 200 |}.

(** *** clean_text *)

Definition ws_run (s : str) : option nat :=
  match s with
  | c :: _ => if isspace c then Some (length s - length (lstrip s))%nat else None
  | [] => None
  end.

(** The characters that [[^\u0D80-\u0DFF\u0020-\u007E\n\r\t]] does not
    match, so the ones the second substitution keeps. *)
Definition allowed (c : char) : bool :=
  is_sinhala c || in_range 0x20 0x7E c || (c =? 0x0A) || (c =? 0x0D) || (c =? 0x09).

Definition not_allowed1 (s : str) : option nat :=
  match s with
  | c :: _ => if allowed c then None else Some 1%nat
  | [] => None
  end.

(** [\d] is the Unicode category Nd.  The two patterns that use it run on
    text that has passed the character filter, and among the characters the
    filter keeps Nd is the ASCII digits and the Sinhala Lith digits
    U+0DE6-U+0DEF. *)
Definition isdecimal (c : char) : bool :=
  in_range 0x30 0x39 c || in_range 0x0DE6 0x0DEF c.

Fixpoint digits (s : str) : nat :=
  match s with
  | c :: r => if isdecimal c then S (digits r) else O
  | [] => O
  end.

Definition page_word : str := Eval vm_compute in u8 "පිටුව".

(** [r'පිටුව \d+'] *)
Definition footer (s : str) : option nat :=
  let p := page_word ++ [0x20] in
  if startswith p s then
    match digits (skipn (length p) s) with
    | O => None
    | S d => Some (length p + S d)%nat
    end
  else None.

(** [r'--- පිටුව \d+ ---'].  The greedy [\d+] takes every digit: giving one
    back would leave a digit where the space is wanted. *)
Definition marker (s : str) : option nat :=
  let p := u8 "--- " ++ page_word ++ [0x20] in
  if startswith p s then
    match digits (skipn (length p) s) with
    | O => None
    | S d =>
        if startswith (u8 " ---") (skipn (length p + S d) s)
        then Some (length p + S d + 4)%nat
        else None
    end
  else None.

(** The nine [text.replace(x, x)] lines replace a vowel sign by itself. *)
Definition vowel_signs : list char :=
  [0x0DCF; 0x0DD3; 0x0DD4; 0x0DD6; 0x0DD9; 0x0DDA; 0x0DDC; 0x0DDD; 0x0DDE].

Definition fix_vowel_marks (text : str) : str :=
  fold_left (fun t v => replace [v] [v] t) vowel_signs text.

Definition clean_text (text : str) : str :=
  let text := re_sub ws_run [0x20] text in
  let text := re_sub not_allowed1 [] text in
  let text := fix_vowel_marks text in
  let text := re_sub footer [] text in
  let text := re_sub marker [0x0A] text in
  strip text.

(** *** create_chunks *)

(** [[.!?។]]; the last delimiter is U+17D4. *)
Definition sentence_end (c : char) : bool :=
  (c =? 0x2E) || (c =? 0x21) || (c =? 0x3F) || (c =? 0x17D4).

Definition sentences_of (text : str) : list str :=
  map strip (filter (fun s => truthy (strip s)) (re_split sentence_end text)).

(** [words[-min(self.chunk_overlap // 10, len(words)):]] *)
Definition overlap_words (self : t) (words : list str) : list str :=
  slice_from (- Z.min (chunk_overlap self / 10) (len words)) words.

(** One turn of the loop over the sentences, on the pair
    [(chunks, current_chunk)]. *)
Definition pack (self : t) (st : list str * str) (sentence : str)
  : list str * str :=
  let '(chunks, current_chunk) := st in
  if len current_chunk + len sentence >? chunk_size self then
    if truthy current_chunk then
      let chunks := chunks ++ [strip current_chunk] in
      if chunk_overlap self >? 0 then
        let words := split current_chunk in
        (chunks, join [0x20] (overlap_words self words) ++ [0x20] ++ sentence)
      else (chunks, sentence)
    else (chunks, sentence)
  else
    (chunks,
     current_chunk ++ (if truthy current_chunk then [0x20] ++ sentence else sentence)).

(** The chunks before the final length filter. *)
Definition raw_chunks (self : t) (text : str) : list str :=
  let '(chunks, current_chunk) := fold_left (pack self) (sentences_of text) ([], []) in
  if truthy (strip current_chunk) then chunks ++ [strip current_chunk] else chunks.

Definition create_chunks (self : t) (text : str) : list str :=
  if truthy text then filter (fun chunk => len chunk >? 50) (raw_chunks self text)
  else [].

(** *** extract_key_terms *)

Definition key_terms : list str :=
  Eval vm_compute in
  [
    u8 "ගිණුම්කරණ"; u8 "ප්‍රමිතිය"; u8 "මූල්‍ය"; u8 "ප්‍රකාශන";
    u8 "වත්කම්"; u8 "වගකීම්"; u8 "හිමිකම"; u8 "ආදායම්";
    u8 "වියදම්"; u8 "ලාභ"; u8 "අලාභ"; u8 "තොග";
    u8 "ක්ෂය"; u8 "ප්‍රතිපාදන"; u8 "මුදල්"; u8 "ප්‍රවාහ";
    u8 "කල්බදු"; u8 "අයභාරය"; u8 "ගනුදෙනුකරු"; u8 "ධාරණ";
    u8 "වටිනාකම"; u8 "පිරිවැය"; u8 "සාධාරණ"; u8 "අගය";
    u8 "ගිවිසුම්"; u8 "කාර්යසාධන"; u8 "බැඳීම්"; u8 "ප්‍රතයාගණන";
    u8 "භාවිත"; u8 "අයිතිය"; u8 "දේපළ"; u8 "පිරියත";
    u8 "උපකරණ"; u8 "අසම්භාව්‍ය"
  ].

Definition extract_key_terms (text : str) : list str :=
  fold_left
    (fun found_terms term =>
       if contains term text then found_terms ++ [term] else found_terms)
    key_terms [].

(** *** extract_text_from_pdf

    The PDF reader is outside the program.  What it delivers is the list
    of the pages, each with the text that [page.extract_text()] returned or
    [None] when that call raised; [None] for the whole file when opening or
    parsing it raised.  The log records are left out. *)

(** [f"\n--- පිටුව {page_num + 1} ---\n"] *)
Definition page_header (page_num : nat) : str :=
  [0x0A] ++ u8 "--- " ++ page_word ++ [0x20] ++ str_of_nat (page_num + 1)
  ++ u8 " ---" ++ [0x0A].

(** The loop over [enumerate(reader.pages)], from page [page_num] on. *)
Fixpoint read_pages (pages : list (option str)) (page_num : nat) (text : str)
  : str :=
  match pages with
  | [] => text
  | None :: rest => read_pages rest (S page_num) text
  | Some page_text :: rest =>
      if truthy (strip page_text)
      then read_pages rest (S page_num) (text ++ page_header page_num ++ page_text)
      else read_pages rest (S page_num) text
  end.

Definition extract_text_from_pdf (self : t) (file : option (list (option str)))
  : list str :=
  match file with
  | None => []
  | Some pages =>
      let text := read_pages pages 0 [] in
      if negb (truthy (strip text)) then []
      else
        let cleaned_text := clean_text text in
        create_chunks self cleaned_text
  end.

(** The chunks and the buffer are made of characters that satisfy [P]. *)
Definition made_of (P : Z -> Prop) (st : list str * str) : Prop :=
  Forall (Forall P) (fst st) /\ Forall P (snd st).

(** The sentence [s] lies in an emitted chunk or in the buffer. *)
Definition covers (st : list str * str) (s : str) : Prop :=
  (exists chunk, In chunk (fst st) /\ occurs_in s chunk) \/ occurs_in s (snd st).

(** What the loop keeps true when no overlap is configured: the emitted
    chunks and the buffer are at most one character over [chunk_size]. *)
Definition within (self : t) (st : list str * str) : Prop :=
  Forall (fun chunk => len chunk <= chunk_size self + 1) (fst st)
  /\ len (snd st) <= chunk_size self + 1.

(** The last [n] elements of a list. *)
Definition lastn {A} (n : nat) (l : list A) : list A :=
  skipn (length l - n) l.

End DocumentProcessor.

(** ** Exceptions and the log

    The transliterator divides, subscripts a dict and writes one log
    record; a computation returns the records it logged and either a value
    or the exception it raised. *)

Module Py.

Inductive exn := ZeroDivisionError | KeyError (key : str).

Inductive LogRecord := INFO (msg : str).

Inductive result (A : Type) := Ok (a : A) | Raise (e : exn).
Arguments Ok {A} a.
Arguments Raise {A} e.

Definition M (A : Type) : Type := list LogRecord * result A.

Definition ret {A} (a : A) : M A := ([], Ok a).

Definition raise {A} (e : exn) : M A := ([], Raise e).

Definition bind {A B} (m : M A) (f : A -> M B) : M B :=
  match m with
  | (l, Ok a) => let '(l', r) := f a in (l ++ l', r)
  | (l, Raise e) => (l, Raise e)
  end.

Definition logger_info (msg : str) : M unit := ([INFO msg], Ok tt).

Fixpoint mapM {A B} (f : A -> M B) (l : list A) : M (list B) :=
  match l with
  | [] => ret []
  | a :: r => bind (f a) (fun b => bind (mapM f r) (fun bs => ret (b :: bs)))
  end.

(** [a / b] on two ints.  The quotient is kept exact; the float that Python
    computes compares with 0.3 and with 0.5 as the exact quotient does for
    every string shorter than 2^50 characters. *)
Definition truediv (a b : Z) : M Q :=
  if b =? 0 then raise ZeroDivisionError else ret (inject_Z a / inject_Z b)%Q.

(** [x > y] on two quotients. *)
Definition Qgtb (x y : Q) : bool := negb (Qle_bool x y).

End Py.
Import Py.

Declare Scope py_scope.
Notation "x <- m ;; k" := (bind m (fun x => k))
  (at level 61, m at next level, right associativity) : py_scope.
Notation "m ;; k" := (bind m (fun _ => k))
  (at level 61, right associativity) : py_scope.
Local Open Scope py_scope.

(** ** The Unicode tables

    [\w] and [str.lower] consult the Unicode character database, which is
    not part of the program: the transliterator is stated over any tables. *)

Class Unicode := {
  isalnum : char -> bool;   (* [str.isalnum] on one character *)
  lower : str -> str        (* [str.lower] *)
}.

(** [\w] in a [str] pattern: alphanumeric or the underscore. *)
Definition isword `{Unicode} (c : char) : bool := isalnum c || (c =? 0x5F).

(** The tables on Basic Latin and the Sinhala block, where the letters are
    U+0D85-0D96, 0D9A-0DB1, 0DB3-0DBB, 0DBD and 0DC0-0DC6, the digits
    U+0DE6-0DEF, and the signs and vowel marks are not alphanumeric.  Every
    other character is taken as a caseless symbol. *)
Definition basic_isalnum (c : char) : bool :=
  in_range 0x30 0x39 c || in_range 0x41 0x5A c || in_range 0x61 0x7A c
  || in_range 0x0D85 0x0D96 c || in_range 0x0D9A 0x0DB1 c
  || in_range 0x0DB3 0x0DBB c || (c =? 0x0DBD) || in_range 0x0DC0 0x0DC6 c
  || in_range 0x0DE6 0x0DEF c.

Definition basic_lower (s : str) : str :=
  map (fun c => if in_range 0x41 0x5A c then c + 32 else c) s.

Definition BasicLatinSinhala : Unicode :=
  {| isalnum := basic_isalnum; lower := basic_lower |}.

(** ** utils/sinhala_transliterator.py *)

Module SinhalaTransliterator.

(** A dict in insertion order, keys distinct. *)
Definition dict := list (str * str).

Fixpoint dict_get (d : dict) (k : str) : option str :=
  match d with
  | [] => None
  | (k', v) :: rest => if str_eqb k k' then Some v else dict_get rest k
  end.

(** [k in d] *)
Definition dict_mem (d : dict) (k : str) : bool :=
  match dict_get d k with Some _ => true | None => false end.

(** [d[k]] *)
Definition dict_getitem (d : dict) (k : str) : M str :=
  match dict_get d k with Some v => ret v | None => raise (KeyError k) end.

(** [d[k] = v]: a present key keeps its place. *)
Fixpoint dict_set (d : dict) (k v : str) : dict :=
  match d with
  | [] => [(k, v)]
  | (k', v') :: rest =>
      if str_eqb k k' then (k', v) :: rest else (k', v') :: dict_set rest k v
  end.

Record t := { transliteration_map : dict; phrase_map : dict }.

Definition builtin_transliteration_map : dict :=
  Eval vm_compute in
  [
    (u8 "accounting", u8 "ගිණුම්කරණ");
    (u8 "ginumkarana", u8 "ගිණුම්කරණ");
    (u8 "ginumkaranaya", u8 "ගිණුම්කරණය");
    (u8 "standard", u8 "ප්‍රමිතිය");
    (u8 "pramiithiya", u8 "ප්‍රමිතිය");
    (u8 "financial", u8 "මූල්‍ය");
    (u8 "moolya", u8 "මූල්‍ය");
    (u8 "statement", u8 "ප්‍රකාශනය");
    (u8 "prakashana", u8 "ප්‍රකාශන");
    (u8 "prakashanaya", u8 "ප්‍රකාශනය");
    (u8 "assets", u8 "වත්කම්");
    (u8 "wathkam", u8 "වත්කම්");
    (u8 "liabilities", u8 "වගකීම්");
    (u8 "wagakeem", u8 "වගකීම්");
    (u8 "equity", u8 "හිමිකම");
    (u8 "himikam", u8 "හිමිකම");
    (u8 "revenue", u8 "ආදායම්");
    (u8 "aadayam", u8 "ආදායම්");
    (u8 "income", u8 "ආදායම්");
    (u8 "expenses", u8 "වියදම්");
    (u8 "wiyadam", u8 "වියදම්");
    (u8 "profit", u8 "ලාභ");
    (u8 "labha", u8 "ලාභ");
    (u8 "loss", u8 "අලාභ");
    (u8 "alabha", u8 "අලාභ");
    (u8 "inventory", u8 "තොග");
    (u8 "thoga", u8 "තොග");
    (u8 "depreciation", u8 "ක්ෂය");
    (u8 "kshaya", u8 "ක්ෂය");
    (u8 "provision", u8 "ප්‍රතිපාදන");
    (u8 "prathipaadana", u8 "ප්‍රතිපාදන");
    (u8 "cash", u8 "මුදල්");
    (u8 "mudal", u8 "මුදල්");
    (u8 "flow", u8 "ප්‍රවාහ");
    (u8 "prawaha", u8 "ප්‍රවාහ");
    (u8 "lease", u8 "කල්බදු");
    (u8 "kalbadu", u8 "කල්බදු");
    (u8 "customer", u8 "ගනුදෙනුකරු");
    (u8 "ganudenukaraya", u8 "ගනුදෙනුකරු");
    (u8 "carrying", u8 "ධාරණ");
    (u8 "dharana", u8 "ධාරණ");
    (u8 "value", u8 "වටිනාකම");
    (u8 "watinaakama", u8 "වටිනාකම");
    (u8 "cost", u8 "පිරිවැය");
    (u8 "piriwaya", u8 "පිරිවැය");
    (u8 "fair", u8 "සාධාරණ");
    (u8 "saadarana", u8 "සාධාරණ");
    (u8 "contract", u8 "ගිවිසුම්");
    (u8 "giwisuma", u8 "ගිවිසුම්");
    (u8 "performance", u8 "කාර්යසාධන");
    (u8 "kaaryasadhana", u8 "කාර්යසාධන");
    (u8 "obligation", u8 "බැඳීම්");
    (u8 "baendeem", u8 "බැඳීම්");
    (u8 "revaluation", u8 "ප්‍රතයාගණන");
    (u8 "prathyaagana", u8 "ප්‍රතයාගණන");
    (u8 "right", u8 "අයිතිය");
    (u8 "ayithiya", u8 "අයිතිය");
    (u8 "use", u8 "භාවිත");
    (u8 "bhaawitha", u8 "භාවිත");
    (u8 "property", u8 "දේපළ");
    (u8 "depala", u8 "දේපළ");
    (u8 "plant", u8 "පිරියත");
    (u8 "piriyatha", u8 "පිරියත");
    (u8 "equipment", u8 "උපකරණ");
    (u8 "upakarana", u8 "උපකරණ");
    (u8 "contingent", u8 "අසම්භාව්‍ය");
    (u8 "asambhaawya", u8 "අසම්භාව්‍ය");
    (u8 "what", u8 "මොකක්ද");
    (u8 "mokakda", u8 "මොකක්ද");
    (u8 "how", u8 "කොහොමද");
    (u8 "kohomada", u8 "කොහොමද");
    (u8 "when", u8 "කවදාද");
    (u8 "kawadaada", u8 "කවදාද");
    (u8 "where", u8 "කොහේද");
    (u8 "koheda", u8 "කොහේද");
    (u8 "why", u8 "ඇයි");
    (u8 "ayee", u8 "ඇයි");
    (u8 "which", u8 "කුමන");
    (u8 "kumana", u8 "කුමන");
    (u8 "lkas", u8 "ශ්‍රී ලංකා ගිණුම්කරණ ප්‍රමිතිය");
    (u8 "slfrs", u8 "ශ්‍රී ලංකා මූල්‍ය වාර්තාකරණ ප්‍රමිතිය")
  ].

Definition builtin_phrase_map : dict :=
  Eval vm_compute in
  [
    (u8 "ginumkaranaya kohomada", u8 "ගිණුම්කරණය කොහොමද");
    (u8 "moolya prakashana", u8 "මූල්‍ය ප්‍රකාශන");
    (u8 "wathkam saha wagakeem", u8 "වත්කම් සහ වගකීම්");
    (u8 "labha alaba prakashana", u8 "ලාභ අලාභ ප්‍රකාශන");
    (u8 "mudal prawaha", u8 "මුදල් ප්‍රවාහ");
    (u8 "himikam wenas weema", u8 "හිමිකම වෙනස් වීම");
    (u8 "thoga watinaakama", u8 "තොග වටිනාකම");
    (u8 "depala piriyatha upakarana", u8 "දේපළ පිරියත උපකරණ");
    (u8 "kshaya kireema", u8 "ක්ෂය කිරීම");
    (u8 "prathipaadana haduna gaaneema", u8 "ප්‍රතිපාදන හඳුනා ගැනීම")
  ].

(** [__init__(self)] *)
Definition init : t :=
  {| transliteration_map := builtin_transliteration_map;
     phrase_map := builtin_phrase_map |}.

Section Methods.
Context {U : Unicode}.

Definition add_custom_mapping (self : t) (english sinhala : str) : t :=
  {| transliteration_map := dict_set (transliteration_map self) (lower english) sinhala;
     phrase_map := phrase_map self |}.

Definition _is_sinhala_text (text : str) : M bool :=
  let sinhala_chars := count_class is_sinhala text in
  let total_chars := count_class isword text in
  if total_chars >? 0 then
    ratio <- truediv sinhala_chars total_chars ;;
    ret (Qgtb ratio (1 # 2))
  else ret false.

(** The loop of [_find_partial_match] over the items still to visit. *)
Fixpoint partial_match_in (items : dict) (word : str) : str :=
  match items with
  | [] => word
  | (eng_word, sin_word) :: rest =>
      if contains word eng_word || contains eng_word word then
        if len word >? 3 then sin_word else partial_match_in rest word
      else partial_match_in rest word
  end.

Definition _find_partial_match (self : t) (word : str) : str :=
  partial_match_in (transliteration_map self) word.

Definition _translation_score (original translated : str) : M Q :=
  if str_eqb original translated then ret 0%Q
  else
    let translated_sinhala_chars := count_class is_sinhala translated in
    let total_chars := len translated in
    if total_chars =? 0 then ret 0%Q
    else truediv translated_sinhala_chars total_chars.

(** The phrase loop: [if eng_phrase in query_lower: query_lower = ...]. *)
Definition phrase_pass (self : t) (query_lower : str) : str :=
  fold_left
    (fun q (entry : str * str) =>
       let '(eng_phrase, sin_phrase) := entry in
       if contains eng_phrase q then replace eng_phrase sin_phrase q else q)
    (phrase_map self) query_lower.

(** [re.sub(r'[^\w]', '', word)] *)
Definition nonword1 (s : str) : option nat :=
  match s with
  | c :: _ => if isword c then None else Some 1%nat
  | [] => None
  end.

Definition clean (word : str) : str := re_sub nonword1 [] word.

(** The body of the loop over the words: what is appended to
    [translated_words]. *)
Definition translate_word (self : t) (word : str) : M str :=
  let clean_word := clean word in
  if dict_mem (transliteration_map self) clean_word then
    dict_getitem (transliteration_map self) clean_word
  else
    let translated := _find_partial_match self clean_word in
    ret (if truthy translated then translated else word).

(** What [translate_word] appends, as a value. *)
Definition translated_word (self : t) (word : str) : str :=
  match dict_get (transliteration_map self) (clean word) with
  | Some sin_word => sin_word
  | None =>
      let translated := _find_partial_match self (clean word) in
      if truthy translated then translated else word
  end.

(** [result], the candidate handed to [_translation_score]. *)
Definition candidate (self : t) (query : str) : M str :=
  let query_lower := lower query in
  let query_lower := phrase_pass self query_lower in
  let words := split query_lower in
  translated_words <- mapM (translate_word self) words ;;
  ret (join [0x20] translated_words).

Definition translated_msg (query result : str) : str :=
  u8 "Translated query: '" ++ query ++ u8 "' -> '" ++ result ++ u8 "'".

Definition process_query (self : t) (query : str) : M str :=
  if negb (truthy query) then ret query
  else
    native <- _is_sinhala_text query ;;
    if native then ret query
    else
      result <- candidate self query ;;
      score <- _translation_score query result ;;
      if Qgtb score (3 # 10) then
        logger_info (translated_msg query result) ;;
        ret result
      else ret query.

(** [add_custom_mapping] with its log record. *)
Definition add_custom_mapping_logged (self : t) (english sinhala : str) : M t :=
  let self := add_custom_mapping self english sinhala in
  logger_info (u8 "Added custom mapping: " ++ english ++ u8 " -> " ++ sinhala) ;;
  ret self.

Definition suggest_sinhala_terms (self : t) (partial_query : str) : list str :=
  let partial_lower := lower partial_query in
  let suggestions :=
    fold_left
      (fun suggestions (entry : str * str) =>
         let '(eng_term, sin_term) := entry in
         if contains partial_lower eng_term || startswith partial_lower eng_term
         then suggestions ++ [sin_term] else suggestions)
      (transliteration_map self) [] in
  firstn 5 suggestions.

(** [key] and [word] are related as [_find_partial_match] tests it. *)
Definition related (key word : str) : bool :=
  contains word key || contains key word.

(** A dictionary entry qualifies as a partial match of [word]: the word is
    longer than three characters and the key lies in it or holds it. *)
Definition qualifying_partial (self : t) (word : str) : bool :=
  (len word >? 3)
  && existsb (fun entry : str * str =>
                contains word (fst entry) || contains (fst entry) word)
             (transliteration_map self).

End Methods.

(** The values of a dictionary are made of characters that satisfy [P]. *)
Definition values_closed (P : Z -> Prop) (d : dict) : Prop :=
  Forall (fun entry : str * str => Forall P (snd entry)) d.

(** No character of [s] is an uppercase ASCII letter. *)
Definition no_ascii_upper (s : str) : Prop :=
  Forall (fun c => in_range 0x41 0x5A c = false) s.

Definition no_ascii_upperb (s : str) : bool :=
  forallb (fun c => negb (in_range 0x41 0x5A c)) s.

End SinhalaTransliterator.

(** ** utils/vector_store.py: what create_collection hands to the index *)

Module VectorStore.

Record Document :=
  { text : str; source : str; chunk_id : nat; document_type : str }.

Record Metadata :=
  { meta_source : str; meta_chunk_id : nat; meta_document_type : str }.

(** The lists that the loop over [enumerate(documents)] fills, with the
    index of the next document. *)
Record Prepared :=
  { next : nat; texts : list str; metadatas : list Metadata; ids : list str }.

(** [f"doc_{i}"] *)
Definition doc_id (i : nat) : str := u8 "doc_" ++ str_of_nat i.

Definition prepare_step (acc : Prepared) (doc : Document) : Prepared :=
  {| next := S (next acc);
     texts := texts acc ++ [text doc];
     metadatas := metadatas acc
                  ++ [{| meta_source := source doc;
                         meta_chunk_id := chunk_id doc;
                         meta_document_type := document_type doc |}];
     ids := ids acc ++ [doc_id (next acc)] |}.

Definition prepare (documents : list Document) : Prepared :=
  fold_left prepare_step documents
    {| next := 0; texts := []; metadatas := []; ids := [] |}.

(** The arguments of one [self.collection.add] call. *)
Record AddCall (E : Type) :=
  { add_embeddings : list E;
    add_documents : list str;
    add_metadatas : list Metadata;
    add_ids : list str }.
Arguments add_embeddings {E} _.
Arguments add_documents {E} _.
Arguments add_metadatas {E} _.
Arguments add_ids {E} _.

Definition batch_size : nat := 100.

Section Batches.
Variable E : Type.
(** [self.embedding_model.encode(texts).tolist()], a model outside the
    program. *)
Variable encode : list str -> list E.

(** The [add] calls of [create_collection], in order, when none of the
    calls into the index raises. *)
Definition add_calls (documents : list Document) : list (AddCall E) :=
  let p := prepare documents in
  let embeddings := encode (texts p) in
  map (fun i =>
         {| add_embeddings := window i batch_size embeddings;
            add_documents := window i batch_size (texts p);
            add_metadatas := window i batch_size (metadatas p);
            add_ids := window i batch_size (ids p) |})
      (range_by (length (texts p)) batch_size).

End Batches.

End VectorStore.

(** * Properties of the chunker *)

Module ChunkerFacts.
Import DocumentProcessor.

Lemma len_nonneg {A} (s : list A) : 0 <= len s.
Proof. unfold len. lia. Qed.

Lemma len_app {A} (a b : list A) : len (a ++ b) = len a + len b.
Proof. unfold len. rewrite length_app. lia. Qed.

Lemma len_cons {A} (a : A) (s : list A) : len (a :: s) = 1 + len s.
Proof. unfold len. cbn [length]. rewrite Nat2Z.inj_succ. lia. Qed.

Lemma lstrip_length (s : str) : (length (lstrip s) <= length s)%nat.
Proof.
  induction s as [|c r IH]; simpl; [lia|].
  destruct (isspace c); simpl; lia.
Qed.

Lemma strip_len (s : str) : len (strip s) <= len s.
Proof.
  unfold strip, rstrip, len.
  rewrite length_rev.
  pose proof (lstrip_length (rev (lstrip s))) as H1.
  rewrite length_rev in H1.
  pose proof (lstrip_length s). lia.
Qed.

(** C3: whatever the text, the chunk size and the overlap, every chunk that
    [create_chunks] returns is longer than 50 characters. *)
Theorem create_chunks_longer_than_50 :
  forall (self : t) (text : str),
    Forall (fun chunk => 50 < len chunk) (create_chunks self text).
Proof.
  intros self text. unfold create_chunks.
  destruct (truthy text); [|constructor].
  apply Forall_forall. intros chunk Hin.
  apply filter_In in Hin. destruct Hin as [_ Hlen].
  apply Z.gtb_lt in Hlen. lia.
Qed.

(** ** The overlap slice *)

Lemma slice_from_zero {A} (l : list A) : slice_from 0 l = l.
Proof.
  unfold slice_from. simpl.
  rewrite Z.min_l by apply len_nonneg. reflexivity.
Qed.

Lemma slice_from_neg {A} (k : Z) (l : list A) :
  0 < k -> k <= len l -> slice_from (- k) l = lastn (Z.to_nat k) l.
Proof.
  intros Hk Hle. unfold slice_from, lastn.
  replace (- k <? 0) with true by (symmetry; apply Z.ltb_lt; lia).
  f_equal. unfold len in *. lia.
Qed.

(** With an overlap of ten characters or more the seed is the last
    [min(chunk_overlap // 10, len(words))] words. *)
Lemma overlap_words_last (self : t) (words : list str) :
  10 <= chunk_overlap self ->
  overlap_words self words
  = lastn (Z.to_nat (Z.min (chunk_overlap self / 10) (len words))) words.
Proof.
  intros Hov. unfold overlap_words.
  assert (1 <= chunk_overlap self / 10)
    by (apply Z.div_le_lower_bound; lia).
  destruct words as [|w ws]; [rewrite Z.min_r by (unfold len; simpl; lia); reflexivity|].
  assert (0 < len (w :: ws)) by (rewrite len_cons; pose proof (len_nonneg ws); lia).
  apply slice_from_neg; lia.
Qed.

(** With an overlap between 1 and 9 the slice is [words[-0:]], which is
    the whole list. *)
Lemma overlap_words_all (self : t) (words : list str) :
  0 <= chunk_overlap self < 10 -> overlap_words self words = words.
Proof.
  intros Hov. unfold overlap_words.
  rewrite Z.div_small by lia.
  rewrite Z.min_l by apply len_nonneg.
  apply slice_from_zero.
Qed.

(** The turn of the loop that emits the buffer and seeds the next one. *)
Lemma pack_overflow (self : t) (chunks : list str) (current sentence : str) :
  truthy current = true ->
  chunk_size self < len current + len sentence ->
  0 < chunk_overlap self ->
  pack self (chunks, current) sentence
  = (chunks ++ [strip current],
     join [0x20] (overlap_words self (split current)) ++ [0x20] ++ sentence).
Proof.
  intros Hc Hlen Hov. unfold pack.
  replace (len current + len sentence >? chunk_size self) with true
    by (symmetry; apply Z.gtb_lt; lia).
  rewrite Hc.
  replace (chunk_overlap self >? 0) with true
    by (symmetry; apply Z.gtb_lt; lia).
  reflexivity.
Qed.

(** X19: from an overlap of 10 on, the buffer that follows an emitted
    chunk is the last [min(chunk_overlap // 10, len(words))] words of that
    chunk, a space and the sentence that did not fit. *)
Lemma pack_seeds_last_words (self : t) (chunks : list str) (current sentence : str) :
  truthy current = true ->
  chunk_size self < len current + len sentence ->
  10 <= chunk_overlap self ->
  pack self (chunks, current) sentence
  = (chunks ++ [strip current],
     join [0x20]
       (lastn (Z.to_nat (Z.min (chunk_overlap self / 10) (len (split current))))
          (split current))
     ++ [0x20] ++ sentence).
Proof.
  intros Hc Hlen Hov.
  rewrite pack_overflow by (assumption || lia).
  rewrite overlap_words_last by assumption. reflexivity.
Qed.

(** Below 10 the buffer that follows starts with every word of the chunk. *)
Lemma pack_seeds_every_word (self : t) (chunks : list str) (current sentence : str) :
  truthy current = true ->
  chunk_size self < len current + len sentence ->
  0 < chunk_overlap self < 10 ->
  pack self (chunks, current) sentence
  = (chunks ++ [strip current],
     join [0x20] (split current) ++ [0x20] ++ sentence).
Proof.
  intros Hc Hlen Hov.
  rewrite pack_overflow by (assumption || lia).
  rewrite overlap_words_all by lia. reflexivity.
Qed.

(** C1, at an overlap of 5: the second chunk starts with every word of the
    first one, not with none of them. *)
Theorem overlap_below_ten_repeats_whole_chunk :
  create_chunks {| chunk_size := 100; chunk_overlap := 5 |}
    (u8 "alpha beta gamma delta epsilon zeta eta theta iota kappa lambda. one two three four five six seven eight nine ten eleven twelve.")
  = [u8 "alpha beta gamma delta epsilon zeta eta theta iota kappa lambda";
     u8 "alpha beta gamma delta epsilon zeta eta theta iota kappa lambda one two three four five six seven eight nine ten eleven twelve"].
Proof. vm_compute. reflexivity. Qed.

(** ** The size of a chunk *)

Lemma pack_within (self : t) (st : list str * str) (sentence : str) :
  chunk_overlap self <= 0 ->
  len sentence <= chunk_size self ->
  within self st -> within self (pack self st sentence).
Proof.
  intros Hov Hs [Hchunks Hcur]. destruct st as [chunks current].
  simpl in Hchunks, Hcur. unfold pack.
  destruct (len current + len sentence >? chunk_size self) eqn:Hover.
  - replace (chunk_overlap self >? 0) with false
      by (symmetry; rewrite Z.gtb_ltb; apply Z.ltb_ge; lia).
    destruct (truthy current); split; simpl; try lia; try assumption.
    apply Forall_app. split; [assumption|].
    constructor; [|constructor].
    pose proof (strip_len current). lia.
  - split; simpl; [assumption|].
    assert (len current + len sentence <= chunk_size self) as Hfit.
    { destruct (Z.gtb_spec (len current + len sentence) (chunk_size self));
        [discriminate|lia]. }
    destruct current as [|c r]; simpl truthy; cbv iota.
    + simpl. lia.
    + rewrite len_app. change ([32] ++ sentence) with (32 :: sentence).
      rewrite (len_cons 32 sentence). lia.
Qed.

Lemma fold_pack_within (self : t) (sentences : list str) :
  chunk_overlap self <= 0 ->
  Forall (fun s => len s <= chunk_size self) sentences ->
  forall st, within self st -> within self (fold_left (pack self) sentences st).
Proof.
  intros Hov Hall. induction Hall as [|s rest Hs _ IH]; intros st Hst.
  - exact Hst.
  - simpl. apply IH. apply pack_within; assumption.
Qed.

(** X18: without overlap, and with no sentence longer than [chunk_size],
    every chunk is at most [chunk_size + 1] characters long: the test
    before a sentence is appended does not count the joining space. *)
Lemma create_chunks_without_overlap (self : t) (text : str) :
  chunk_overlap self <= 0 ->
  0 <= chunk_size self ->
  Forall (fun s => len s <= chunk_size self) (sentences_of text) ->
  Forall (fun chunk => len chunk <= chunk_size self + 1) (create_chunks self text).
Proof.
  intros Hov Hsize Hall. unfold create_chunks.
  destruct (truthy text); [|constructor].
  apply Forall_forall. intros chunk Hin.
  apply filter_In in Hin. destruct Hin as [Hin _].
  revert chunk Hin. apply Forall_forall.
  unfold raw_chunks.
  pose proof (fold_pack_within self (sentences_of text) Hov Hall ([], [])) as Hw.
  destruct (fold_left (pack self) (sentences_of text) ([], [])) as [chunks current].
  destruct Hw as [Hchunks Hcur].
  { split; simpl; [constructor|unfold len; simpl; lia]. }
  simpl in Hchunks, Hcur.
  destruct (truthy (strip current)); [|assumption].
  apply Forall_app. split; [assumption|].
  constructor; [|constructor].
  pose proof (strip_len current). lia.
Qed.

(** C2, at [chunk_size = 60] without overlap: two sentences of 30
    characters pass the test [30 + 30 > 60] and are joined by a space into
    one chunk of 61 characters. *)
Theorem joining_space_passes_chunk_size :
  Forall (fun s => len s <= 60)
    (sentences_of (u8 "assets are resources of a firm. liabilities are its debts owed."))
  /\ create_chunks {| chunk_size := 60; chunk_overlap := 0 |}
       (u8 "assets are resources of a firm. liabilities are its debts owed.")
     = [u8 "assets are resources of a firm liabilities are its debts owed"]
  /\ len (u8 "assets are resources of a firm liabilities are its debts owed") = 61.
Proof.
  split; [|split]; [|vm_compute; reflexivity|vm_compute; reflexivity].
  apply Forall_forall. intros s Hin. vm_compute in Hin.
  destruct Hin as [<-|[<-|[]]]; vm_compute; discriminate.
Qed.

(** ** Page markers *)

Lemma replace_self (v : Z) (s : str) : replace [v] [v] s = s.
Proof.
  unfold replace, re_sub. cbn [length].
  induction s as [|c r IH]; [reflexivity|].
  cbn [re_sub_from startswith].
  destruct (v =? c) eqn:E; cbn [andb app];
    [apply Z.eqb_eq in E; subst|]; f_equal; exact IH.
Qed.

(** The nine replacements of a vowel sign by itself change nothing. *)
Lemma fix_vowel_marks_id (text : str) : fix_vowel_marks text = text.
Proof.
  unfold fix_vowel_marks. generalize vowel_signs. intros signs.
  induction signs as [|v vs IH]; cbn [fold_left]; [reflexivity|].
  rewrite replace_self. exact IH.
Qed.

Lemma filter_keeps_allowed (s : str) (skip : nat) :
  Forall (fun c => allowed c = true) (re_sub_from not_allowed1 [] skip s).
Proof.
  revert skip. induction s as [|c r IH]; intros skip; simpl; [constructor|].
  destruct skip; [|apply IH].
  destruct (allowed c) eqn:E; simpl; [constructor; [exact E|apply IH]|apply IH].
Qed.

(** The text that the two page patterns scan holds allowed characters only,
    the ones on which [isdecimal] is [\d]. *)
Lemma page_patterns_scan_allowed (text : str) :
  Forall (fun c => allowed c = true)
    (fix_vowel_marks (re_sub not_allowed1 [] (re_sub ws_run [0x20] text))).
Proof. rewrite fix_vowel_marks_id. apply filter_keeps_allowed. Qed.

(** C8, on the text that [extract_text_from_pdf] builds for a one-page
    document: the footer pattern runs first and takes the page word and
    number out of the marker, so the marker pattern finds nothing and both
    runs of dashes stay. *)
Theorem page_marker_leaves_dashes :
  clean_text ([0x0A] ++ u8 "--- පිටුව 1 ---" ++ [0x0A] ++ u8 "Property, plant and equipment")
  = u8 "---  --- Property, plant and equipment".
Proof. vm_compute. reflexivity. Qed.

End ChunkerFacts.

(** * Properties of the transliterator *)

Module TransliteratorFacts.
Import SinhalaTransliterator.

Lemma str_eqb_eq (a b : str) : str_eqb a b = true <-> a = b.
Proof.
  revert b. induction a as [|x a IH]; intros [|y b]; simpl;
    try (split; [discriminate|discriminate]); [tauto|].
  rewrite andb_true_iff, Z.eqb_eq, IH.
  split; [intros [-> ->]; reflexivity|intros [= -> ->]; auto].
Qed.

Lemma str_eqb_refl (a : str) : str_eqb a a = true.
Proof. apply str_eqb_eq. reflexivity. Qed.

Lemma bind_ret {A B} (a : A) (f : A -> M B) : bind (ret a) f = f a.
Proof. unfold bind, ret. destruct (f a) as [l r]. reflexivity. Qed.

Section Values.
Context {U : Unicode}.

(** ** Every helper returns a value *)

Lemma translate_word_ret (self : t) (word : str) :
  translate_word self word = ret (translated_word self word).
Proof.
  unfold translate_word, translated_word, dict_mem, dict_getitem.
  destruct (dict_get (transliteration_map self) (clean word)); reflexivity.
Qed.

Lemma mapM_translate_word (self : t) (words : list str) :
  mapM (translate_word self) words = ret (map (translated_word self) words).
Proof.
  induction words as [|w ws IH]; simpl; [reflexivity|].
  rewrite translate_word_ret, bind_ret, IH, bind_ret. reflexivity.
Qed.

Lemma candidate_ret (self : t) (query : str) :
  candidate self query
  = ret (join [0x20]
           (map (translated_word self) (split (phrase_pass self (lower query))))).
Proof. unfold candidate. rewrite mapM_translate_word, bind_ret. reflexivity. Qed.

Lemma is_sinhala_text_ret (text : str) :
  _is_sinhala_text text
  = ret ((count_class isword text >? 0)
         && Qgtb (inject_Z (count_class is_sinhala text)
                  / inject_Z (count_class isword text)) (1 # 2)).
Proof.
  unfold _is_sinhala_text, truediv.
  destruct (count_class isword text >? 0) eqn:Hpos; [|reflexivity].
  apply Z.gtb_lt in Hpos.
  replace (count_class isword text =? 0) with false
    by (symmetry; apply Z.eqb_neq; lia).
  rewrite bind_ret. reflexivity.
Qed.

(** The score as a value: 0 for an unchanged candidate, else the share of
    Sinhala characters in the candidate. *)
Lemma translation_score_ret (original translated : str) :
  _translation_score original translated
  = ret (if str_eqb original translated then 0
         else inject_Z (count_class is_sinhala translated)
              / inject_Z (len translated))%Q.
Proof.
  unfold _translation_score, truediv.
  destruct (str_eqb original translated); [reflexivity|].
  destruct translated as [|c r]; [reflexivity|].
  replace (len (c :: r) =? 0) with false; [reflexivity|].
  symmetry. apply Z.eqb_neq. unfold len. simpl. lia.
Qed.

Lemma Qgtb_lt (x y : Q) : Qgtb x y = true <-> (y < x)%Q.
Proof.
  unfold Qgtb. rewrite negb_true_iff.
  split; intros H.
  - apply Qnot_le_lt. intros Hle. apply Qle_bool_iff in Hle. congruence.
  - destruct (Qle_bool x y) eqn:E; [|reflexivity].
    apply Qle_bool_iff in E. exfalso. exact (Qlt_not_le _ _ H E).
Qed.

Lemma Qgtb_le (x y : Q) : Qgtb x y = false <-> (x <= y)%Q.
Proof.
  unfold Qgtb. rewrite negb_false_iff. apply Qle_bool_iff.
Qed.

(** ** The decision of [process_query] *)

Lemma process_query_native (self : t) (query : str) :
  _is_sinhala_text query = ret true -> process_query self query = ret query.
Proof.
  intros Hn. unfold process_query.
  destruct (negb (truthy query)); [reflexivity|].
  rewrite Hn, bind_ret. reflexivity.
Qed.

Lemma process_query_translates (self : t) (query result : str) (score : Q) :
  query <> [] ->
  _is_sinhala_text query = ret false ->
  candidate self query = ret result ->
  _translation_score query result = ret score ->
  process_query self query
  = if Qgtb score (3 # 10)
    then ([INFO (translated_msg query result)], Ok result)
    else ret query.
Proof.
  intros Hq Hn Hc Hs. unfold process_query.
  destruct query as [|c r]; [congruence|]. simpl negb. cbv iota.
  rewrite Hn, bind_ret, Hc, bind_ret, Hs, bind_ret.
  destruct (Qgtb score (3 # 10)); reflexivity.
Qed.

(** C4: for a non-empty query that is not native script, the score is 0
    when the candidate equals the query and otherwise the number of Sinhala
    characters of the candidate over its length; [process_query] takes the
    accepting return, with the candidate and the log record, exactly when
    the score is above 0.3, which is also exactly when it returns a
    candidate that differs from the query; it returns the query unchanged
    when the score is at most 0.3. *)
Theorem process_query_accepts_iff :
  forall (self : t) (query : str),
    query <> [] ->
    _is_sinhala_text query = ret false ->
    exists (result : str) (score : Q),
      candidate self query = ret result
      /\ _translation_score query result = ret score
      /\ score = (if str_eqb query result then 0
                  else inject_Z (count_class is_sinhala result)
                       / inject_Z (len result))%Q
      /\ ((3 # 10 < score)%Q <->
          process_query self query
          = ([INFO (translated_msg query result)], Ok result))
      /\ ((3 # 10 < score)%Q <->
          snd (process_query self query) = Ok result /\ result <> query)
      /\ ((score <= 3 # 10)%Q -> process_query self query = ret query).
Proof.
  intros self query Hq Hn.
  eexists. eexists.
  split; [apply candidate_ret|].
  split; [apply translation_score_ret|].
  split; [reflexivity|].
  set (result := join [32] _).
  set (score := (if str_eqb query result then _ else _)%Q).
  pose proof (process_query_translates self query result score Hq Hn
                (candidate_ret self query)
                (translation_score_ret query result)) as Hpq.
  split; [split|split; [split|]].
  - intros Hlt. apply Qgtb_lt in Hlt. rewrite Hpq, Hlt. reflexivity.
  - intros Hacc. rewrite Hpq in Hacc.
    destruct (Qgtb score (3 # 10)) eqn:E; [apply Qgtb_lt; exact E|].
    discriminate Hacc.
  - intros Hlt. split.
    + apply Qgtb_lt in Hlt. rewrite Hpq, Hlt. reflexivity.
    + intros Heq. subst score. rewrite Heq, str_eqb_refl in Hlt.
      discriminate Hlt.
  - intros [Hval Hne]. rewrite Hpq in Hval.
    destruct (Qgtb score (3 # 10)) eqn:E; [apply Qgtb_lt; exact E|].
    simpl in Hval. congruence.
  - intros Hle. apply Qgtb_le in Hle. rewrite Hpq, Hle. reflexivity.
Qed.

Lemma is_sinhala_text_true (text : str) :
  0 < count_class isword text ->
  (1 # 2 < inject_Z (count_class is_sinhala text)
           / inject_Z (count_class isword text))%Q ->
  _is_sinhala_text text = ret true.
Proof.
  intros Hpos Hratio. rewrite is_sinhala_text_ret.
  replace (count_class isword text >? 0) with true
    by (symmetry; apply Z.gtb_lt; lia).
  apply Qgtb_lt in Hratio. rewrite Hratio. reflexivity.
Qed.

(** C6: the empty query comes back as it is, and so does every query with
    at least one word character whose Sinhala characters are more than half
    of its word characters. *)
Theorem process_query_keeps_native :
  forall (self : t) (query : str),
    query = []
    \/ (0 < count_class isword query
        /\ (1 # 2 < inject_Z (count_class is_sinhala query)
                    / inject_Z (count_class isword query))%Q) ->
    process_query self query = ret query.
Proof.
  intros self query [->|[Hpos Hratio]]; [reflexivity|].
  apply process_query_native, is_sinhala_text_true; assumption.
Qed.

(** C9: no call raises.  [process_query] returns a value for every query
    and every pair of dictionaries, and so do the two helpers that divide:
    [_is_sinhala_text] divides only when there is a word character and
    [_translation_score] only when the candidate is not empty.
    [clean_text] and [create_chunks] are made of total operations only. *)
Theorem calls_never_raise :
  forall (self : t) (processor : DocumentProcessor.t) (text query : str),
    (exists cleaned, DocumentProcessor.clean_text text = cleaned)
    /\ (exists chunks, DocumentProcessor.create_chunks processor text = chunks)
    /\ (exists value, snd (process_query self query) = Ok value)
    /\ (exists native, _is_sinhala_text text = ret native)
    /\ (forall translated, exists score,
          _translation_score query translated = ret score).
Proof.
  intros self processor text query.
  split; [eexists; reflexivity|].
  split; [eexists; reflexivity|].
  split; [|split].
  - unfold process_query.
    destruct (negb (truthy query)); [eexists; reflexivity|].
    rewrite is_sinhala_text_ret, bind_ret.
    match goal with |- context [if ?b then ret query else _] => destruct b end;
      [eexists; reflexivity|].
    rewrite candidate_ret, bind_ret, translation_score_ret, bind_ret.
    match goal with |- context [Qgtb ?x ?y] => destruct (Qgtb x y) end;
      eexists; reflexivity.
  - eexists. apply is_sinhala_text_ret.
  - intros translated. eexists. apply translation_score_ret.
Qed.

(** ** The word pass *)

Lemma partial_match_in_none (items : dict) (word : str) :
  (len word >? 3)
  && existsb (fun entry : str * str =>
                contains word (fst entry) || contains (fst entry) word) items
  = false ->
  partial_match_in items word = word.
Proof.
  induction items as [|[eng_word sin_word] rest IH]; intros H; [reflexivity|].
  simpl in *.
  destruct (contains word eng_word || contains eng_word word); simpl in H.
  - rewrite andb_true_r in H. rewrite H. apply IH. rewrite H. reflexivity.
  - apply IH. exact H.
Qed.

(** C7, as the code has it: a token with no exact match and no qualifying
    partial match is emitted with its non-word characters stripped when
    that leaves at least one character, and is emitted as it stands, its
    punctuation kept, when stripping leaves nothing. *)
Theorem unmatched_token_stripped_or_kept :
  forall (self : t) (word : str),
    dict_mem (transliteration_map self) (clean word) = false ->
    qualifying_partial self (clean word) = false ->
    translate_word self word
    = ret (if truthy (clean word) then clean word else word).
Proof.
  intros self word Hexact Hpartial.
  unfold translate_word. rewrite Hexact.
  unfold _find_partial_match.
  rewrite (partial_match_in_none _ _ Hpartial). reflexivity.
Qed.

End Values.

(** C7 fails on a token of punctuation only: ["???"] has no exact and no
    partial match, stripping it leaves the empty string, and the token that
    is emitted is ["???"] itself. *)
Lemma punctuation_token_is_kept :
  dict_mem (transliteration_map init) (clean (U := BasicLatinSinhala) (u8 "???"))
  = false
  /\ qualifying_partial init (clean (U := BasicLatinSinhala) (u8 "???")) = false
  /\ translate_word (U := BasicLatinSinhala) init (u8 "???") = ret (u8 "???")
  /\ translate_word (U := BasicLatinSinhala) init (u8 "???")
     <> ret (clean (U := BasicLatinSinhala) (u8 "???")).
Proof.
  split; [vm_compute; reflexivity|].
  split; [vm_compute; reflexivity|].
  split; [vm_compute; reflexivity|].
  vm_compute. discriminate.
Qed.

Lemma unmatched_token_stripped_or_kept_witness :
  translate_word (U := BasicLatinSinhala) init (u8 "(ifrs),") = ret (u8 "ifrs")
  /\ translate_word (U := BasicLatinSinhala) init (u8 "???") = ret (u8 "???").
Proof.
  split.
  - apply (unmatched_token_stripped_or_kept (U := BasicLatinSinhala) init (u8 "(ifrs),"));
      vm_compute; reflexivity.
  - apply (unmatched_token_stripped_or_kept (U := BasicLatinSinhala) init (u8 "???"));
      vm_compute; reflexivity.
Defined.

(** The kept punctuation reaches the result of [process_query]. *)
Example punctuation_reaches_result :
  snd (process_query (U := BasicLatinSinhala) init (u8 "cash ??? flow"))
  = Ok (u8 "මුදල් ??? ප්‍රවාහ").
Proof. vm_compute. reflexivity. Qed.

(** C5: the phrase pass does turn the query into the phrase-map value, but
    the word pass then strips the vowel signs and the al-lakuna, which [\w]
    does not match, from both words; the accepted result is the bare
    consonants. *)
Theorem phrase_value_loses_vowel_signs :
  phrase_pass init (lower (Unicode := BasicLatinSinhala) (u8 "ginumkaranaya kohomada"))
  = u8 "ගිණුම්කරණය කොහොමද"
  /\ snd (process_query (U := BasicLatinSinhala) init (u8 "ginumkaranaya kohomada"))
     = Ok (u8 "ගණමකරණය කහමද")
  /\ u8 "ගණමකරණය කහමද" <> u8 "ගිණුම්කරණය කොහොමද".
Proof.
  split; [vm_compute; reflexivity|].
  split; [vm_compute; reflexivity|].
  vm_compute. discriminate.
Qed.

(** ** Where the characters of the candidate come from *)

Section Closure.
Context {U : Unicode}.
Variable P : Z -> Prop.

Lemma re_sub_from_closed (m : str -> option nat) (repl : str) :
  Forall P repl ->
  forall (s : str) (skip : nat), Forall P s -> Forall P (re_sub_from m repl skip s).
Proof.
  intros Hrepl. induction s as [|c r IH]; intros skip Hs; simpl; [constructor|].
  inversion Hs as [|? ? Hc Hr]; subst.
  destruct skip; [|apply IH; assumption].
  destruct (m (c :: r)) as [[|n]|].
  - constructor; [assumption|apply IH; assumption].
  - apply Forall_app. split; [assumption|apply IH; assumption].
  - constructor; [assumption|apply IH; assumption].
Qed.

Lemma replace_closed (old new s : str) :
  Forall P new -> Forall P s -> Forall P (replace old new s).
Proof.
  intros Hnew Hs. destruct old as [|x old]; simpl.
  - apply Forall_app. split; [assumption|].
    induction Hs as [|c r Hc _ IH]; simpl; [constructor|].
    constructor; [assumption|]. apply Forall_app. split; assumption.
  - apply re_sub_from_closed; assumption.
Qed.

Lemma split_from_closed (s cur : str) :
  Forall P cur -> Forall P s -> Forall (Forall P) (split_from cur s).
Proof.
  revert cur. induction s as [|c r IH]; intros cur Hcur Hs; simpl.
  - destruct (truthy cur); repeat constructor; assumption.
  - inversion Hs as [|? ? Hc Hr]; subst.
    destruct (isspace c).
    + destruct (truthy cur); [constructor; [assumption|]|]; apply IH;
        try constructor; assumption.
    + apply IH; [|assumption].
      apply Forall_app. split; [assumption|repeat constructor; assumption].
Qed.

Lemma join_closed (sep : str) (parts : list str) :
  Forall P sep -> Forall (Forall P) parts -> Forall P (join sep parts).
Proof.
  intros Hsep Hparts.
  induction Hparts as [|p rest Hp Hrest IH]; [constructor|].
  simpl. destruct rest as [|q rest]; [assumption|].
  apply Forall_app. split; [assumption|].
  apply Forall_app. split; assumption.
Qed.

Lemma dict_get_closed (d : dict) (k v : str) :
  values_closed P d -> dict_get d k = Some v -> Forall P v.
Proof.
  intros Hd. induction Hd as [|[k' v'] rest Hv _ IH]; simpl; [discriminate|].
  destruct (str_eqb k k'); [intros [= <-]; exact Hv|exact IH].
Qed.

Lemma partial_match_in_closed (items : dict) (word : str) :
  values_closed P items -> Forall P word -> Forall P (partial_match_in items word).
Proof.
  intros Hd Hw. induction Hd as [|[eng_word sin_word] rest Hv _ IH]; simpl;
    [assumption|].
  destruct (contains word eng_word || contains eng_word word); [|exact IH].
  destruct (len word >? 3); [exact Hv|exact IH].
Qed.

Lemma translated_word_closed (self : t) (word : str) :
  values_closed P (transliteration_map self) ->
  Forall P word -> Forall P (translated_word self word).
Proof.
  intros Hd Hw. unfold translated_word.
  destruct (dict_get (transliteration_map self) (clean word)) as [v|] eqn:E.
  - exact (dict_get_closed _ _ _ Hd E).
  - unfold _find_partial_match.
    assert (Forall P (clean word)) as Hclean
      by (apply re_sub_from_closed; [constructor|assumption]).
    pose proof (partial_match_in_closed _ _ Hd Hclean) as Hp.
    destruct (truthy (partial_match_in (transliteration_map self) (clean word)));
      assumption.
Qed.

Lemma phrase_pass_closed (self : t) (query_lower : str) :
  values_closed P (phrase_map self) ->
  Forall P query_lower -> Forall P (phrase_pass self query_lower).
Proof.
  unfold phrase_pass. intros Hd. revert query_lower.
  induction Hd as [|[eng_phrase sin_phrase] rest Hv _ IH]; intros q Hq; simpl;
    [assumption|].
  apply IH. destruct (contains eng_phrase q); [|assumption].
  apply replace_closed; assumption.
Qed.

Lemma candidate_closed (self : t) (query result : str) :
  values_closed P (transliteration_map self) ->
  values_closed P (phrase_map self) ->
  P 0x20 ->
  Forall P (lower query) ->
  candidate self query = ret result -> Forall P result.
Proof.
  intros Ht Hp Hsp Hlow Hc. rewrite candidate_ret in Hc.
  injection Hc as <-.
  apply join_closed; [repeat constructor; assumption|].
  apply Forall_map.
  assert (Forall (Forall P) (split (phrase_pass self (lower query)))) as Hwords.
  { apply split_from_closed; [constructor|].
    apply phrase_pass_closed; assumption. }
  revert Hwords. apply Forall_impl. intros w Hw.
  apply translated_word_closed; assumption.
Qed.

End Closure.

Lemma no_ascii_upperb_spec (s : str) :
  no_ascii_upperb s = true -> no_ascii_upper s.
Proof.
  unfold no_ascii_upperb, no_ascii_upper. intros H.
  apply Forall_forall. intros c Hin.
  rewrite forallb_forall in H. apply H in Hin.
  apply negb_true_iff. exact Hin.
Qed.

Lemma builtin_values_no_upper (d : dict) :
  forallb (fun entry : str * str => no_ascii_upperb (snd entry)) d = true ->
  values_closed (fun c => in_range 0x41 0x5A c = false) d.
Proof.
  intros H. apply Forall_forall. intros entry Hin.
  rewrite forallb_forall in H. apply no_ascii_upperb_spec, H, Hin.
Qed.

(** A non-empty log is the mark of the accepting return. *)
Lemma process_query_value (U : Unicode) (self : t) (query value : str) :
  snd (process_query self query) = Ok value ->
  value = query \/ candidate self query = ret value.
Proof.
  unfold process_query.
  destruct (negb (truthy query)); [intros [= <-]; left; reflexivity|].
  rewrite is_sinhala_text_ret, bind_ret.
  match goal with |- context [if ?b then ret query else _] => destruct b end;
    [intros [= <-]; left; reflexivity|].
  rewrite candidate_ret, bind_ret, translation_score_ret, bind_ret.
  match goal with |- context [Qgtb ?x ?y] => destruct (Qgtb x y) end.
  - intros [= <-]. right. reflexivity.
  - intros [= <-]. left. reflexivity.
Qed.

(** C10: with the built-in dictionaries, and tables whose [lower] never
    yields an uppercase ASCII letter, a result that differs from the query
    holds no uppercase ASCII letter. *)
Theorem accepted_result_has_no_ascii_upper :
  forall (U : Unicode),
    (forall s : str, no_ascii_upper (lower s)) ->
    forall (query value : str),
      snd (process_query init query) = Ok value ->
      value <> query ->
      no_ascii_upper value.
Proof.
  intros U Hlower query value Hv Hne.
  destruct (process_query_value U init query value Hv) as [->|Hc];
    [congruence|].
  unfold no_ascii_upper.
  apply (candidate_closed _ init query value).
  - apply builtin_values_no_upper. vm_compute. reflexivity.
  - apply builtin_values_no_upper. vm_compute. reflexivity.
  - reflexivity.
  - apply Hlower.
  - exact Hc.
Qed.

Lemma basic_lower_no_upper (s : str) : no_ascii_upper (basic_lower s).
Proof.
  unfold no_ascii_upper, basic_lower. apply Forall_map, Forall_forall.
  intros c _. unfold in_range.
  destruct (65 <=? c) eqn:E1; destruct (c <=? 90) eqn:E2; simpl;
    rewrite ?E1, ?E2; simpl; try reflexivity.
  apply Z.leb_le in E1. apply Z.leb_le in E2.
  apply andb_false_iff. right. apply Z.leb_gt. lia.
Qed.

Lemma accepted_result_has_no_ascii_upper_witness :
  no_ascii_upper (u8 "මොකක්ද is ශ්‍රී ලංකා ගිණුම්කරණ ප්‍රමිතිය").
Proof.
  apply (accepted_result_has_no_ascii_upper BasicLatinSinhala
           basic_lower_no_upper (u8 "What is LKAS?")).
  - vm_compute. reflexivity.
  - vm_compute. discriminate.
Defined.

(** A query without a dictionary hit: the candidate is the query itself,
    the score is 0 and the query is returned without a log record. *)
Example hello_world_is_echoed :
  candidate (U := BasicLatinSinhala) init (u8 "hello world") = ret (u8 "hello world")
  /\ _translation_score (u8 "hello world") (u8 "hello world") = ret 0%Q
  /\ process_query (U := BasicLatinSinhala) init (u8 "hello world")
     = ret (u8 "hello world").
Proof. repeat split; vm_compute; reflexivity. Qed.

Lemma process_query_accepts_iff_witness :
  exists (result : str) (score : Q),
    candidate (U := BasicLatinSinhala) init (u8 "what is lkas") = ret result
    /\ _translation_score (u8 "what is lkas") result = ret score
    /\ score = (if str_eqb (u8 "what is lkas") result then 0
                else inject_Z (count_class is_sinhala result)
                     / inject_Z (len result))%Q
    /\ ((3 # 10 < score)%Q <->
        process_query (U := BasicLatinSinhala) init (u8 "what is lkas")
        = ([INFO (translated_msg (u8 "what is lkas") result)], Ok result))
    /\ ((3 # 10 < score)%Q <->
        snd (process_query (U := BasicLatinSinhala) init (u8 "what is lkas"))
        = Ok result
        /\ result <> u8 "what is lkas")
    /\ ((score <= 3 # 10)%Q ->
        process_query (U := BasicLatinSinhala) init (u8 "what is lkas")
        = ret (u8 "what is lkas")).
Proof.
  apply (process_query_accepts_iff (U := BasicLatinSinhala) init (u8 "what is lkas")).
  - vm_compute. discriminate.
  - vm_compute. reflexivity.
Defined.

Lemma process_query_keeps_native_witness :
  process_query (U := BasicLatinSinhala) init [] = ret []
  /\ process_query (U := BasicLatinSinhala) init (u8 "මූල්‍ය ප්‍රකාශන මොකක්ද?")
     = ret (u8 "මූල්‍ය ප්‍රකාශන මොකක්ද?").
Proof.
  split.
  - apply (process_query_keeps_native (U := BasicLatinSinhala) init []).
    left. reflexivity.
  - apply (process_query_keeps_native (U := BasicLatinSinhala) init
             (u8 "මූල්‍ය ප්‍රකාශන මොකක්ද?")).
    right. split; vm_compute; reflexivity.
Defined.

End TransliteratorFacts.

(** * More of the program *)

(** ** Substrings and stripping *)

Module StringFacts.

Lemma lstrip_app (a b : str) :
  lstrip (a ++ b)
  = match lstrip a with [] => lstrip b | _ :: _ => lstrip a ++ b end.
Proof.
  induction a as [|c r IH]; simpl; [destruct (lstrip b); reflexivity|].
  destruct (isspace c); [exact IH|reflexivity].
Qed.

Lemma lstrip_head (s : str) (c : Z) (r : str) :
  lstrip s = c :: r -> isspace c = false.
Proof.
  induction s as [|x s IH]; simpl; [discriminate|].
  destruct (isspace x) eqn:E; [exact IH|]. intros [= <- _]. exact E.
Qed.

Lemma lstrip_fixed (c : Z) (r : str) : isspace c = false -> lstrip (c :: r) = c :: r.
Proof. intros E. simpl. rewrite E. reflexivity. Qed.

Lemma lstrip_idem (s : str) : lstrip (lstrip s) = lstrip s.
Proof.
  destruct (lstrip s) as [|c r] eqn:E; [reflexivity|].
  apply lstrip_fixed. exact (lstrip_head _ _ _ E).
Qed.

Lemma rstrip_idem (s : str) : rstrip (rstrip s) = rstrip s.
Proof. unfold rstrip. rewrite rev_involutive, lstrip_idem. reflexivity. Qed.

(** Stripping the right end keeps a first character that is no space. *)
Lemma rstrip_keeps_head (c : Z) (r : str) :
  isspace c = false -> exists r', rstrip (c :: r) = c :: r'.
Proof.
  intros E. unfold rstrip. simpl rev. rewrite lstrip_app.
  destruct (lstrip (rev r)) as [|x l].
  - rewrite (lstrip_fixed c [] E). exists []. reflexivity.
  - rewrite rev_app_distr. simpl. eexists. reflexivity.
Qed.

Lemma lstrip_strip (s : str) : lstrip (strip s) = strip s.
Proof.
  unfold strip. destruct (lstrip s) as [|c r] eqn:E; [reflexivity|].
  destruct (rstrip_keeps_head c r (lstrip_head _ _ _ E)) as [r' ->].
  apply lstrip_fixed. exact (lstrip_head _ _ _ E).
Qed.

Lemma rstrip_strip (s : str) : rstrip (strip s) = strip s.
Proof. unfold strip. apply rstrip_idem. Qed.

Lemma strip_idem (s : str) : strip (strip s) = strip s.
Proof. unfold strip at 1. rewrite lstrip_strip. apply rstrip_strip. Qed.

Lemma lstrip_closed (P : Z -> Prop) (s : str) : Forall P s -> Forall P (lstrip s).
Proof.
  induction 1 as [|c r Hc Hr IH]; simpl; [constructor|].
  destruct (isspace c); [exact IH|constructor; assumption].
Qed.

Lemma strip_closed (P : Z -> Prop) (s : str) : Forall P s -> Forall P (strip s).
Proof.
  intros H. unfold strip, rstrip.
  apply Forall_rev, lstrip_closed, Forall_rev, lstrip_closed, H.
Qed.

(** *** [in] on strings *)

Lemma startswith_prefix (p s : str) :
  startswith p s = true <-> exists post, s = p ++ post.
Proof.
  revert s. induction p as [|x p IH]; intros s; simpl.
  - split; [intros _; exists s; reflexivity|reflexivity].
  - destruct s as [|y s].
    + split; [discriminate|intros [post H]; discriminate H].
    + rewrite andb_true_iff, Z.eqb_eq, IH. split.
      * intros [-> [post ->]]. exists post. reflexivity.
      * intros [post [= -> ->]]. split; [reflexivity|exists post; reflexivity].
Qed.

Lemma contains_occurs (p s : str) : contains p s = true <-> occurs_in p s.
Proof.
  unfold occurs_in. induction s as [|c r IH]; simpl.
  - rewrite orb_false_r, startswith_prefix. split.
    + intros [post H]. exists [], post. exact H.
    + intros [pre [post H]]. destruct pre; [exists post; exact H|discriminate H].
  - rewrite orb_true_iff, IH, startswith_prefix. split.
    + intros [[post H]|[pre [post H]]].
      * exists [], post. exact H.
      * exists (c :: pre), post. simpl. rewrite H. reflexivity.
    + intros [pre [post H]]. destruct pre as [|x pre].
      * left. exists post. exact H.
      * right. injection H as _ H. exists pre, post. exact H.
Qed.

Lemma startswith_contains (p s : str) :
  startswith p s = true -> contains p s = true.
Proof. intros H. destruct s; simpl in *; rewrite H; reflexivity. Qed.

Lemma occurs_in_refl (s : str) : occurs_in s s.
Proof. exists [], []. rewrite app_nil_r. reflexivity. Qed.

Lemma occurs_in_app (p s a b : str) : occurs_in p s -> occurs_in p (a ++ s ++ b).
Proof.
  intros [pre [post ->]]. exists (a ++ pre), (post ++ b).
  rewrite <- !app_assoc. reflexivity.
Qed.

Lemma occurs_in_len (p s : str) : occurs_in p s -> len p <= len s.
Proof.
  intros [pre [post ->]]. unfold len. rewrite !length_app. lia.
Qed.

Lemma occurs_in_closed (P : Z -> Prop) (p s : str) :
  occurs_in p s -> Forall P s -> Forall P p.
Proof.
  intros [pre [post ->]] H.
  apply Forall_app in H. destruct H as [_ H].
  apply Forall_app in H. tauto.
Qed.

Lemma occurs_in_rev (p s : str) : occurs_in p s -> occurs_in (rev p) (rev s).
Proof.
  intros [pre [post ->]]. exists (rev post), (rev pre).
  rewrite !rev_app_distr, app_assoc. reflexivity.
Qed.

Lemma occurs_in_lstrip (p s : str) :
  p <> [] -> lstrip p = p -> occurs_in p s -> occurs_in p (lstrip s).
Proof.
  intros Hne Hp [pre [post ->]].
  rewrite lstrip_app.
  destruct (lstrip pre) as [|x l].
  - rewrite lstrip_app, Hp. destruct p as [|c r]; [congruence|].
    exists [], post. reflexivity.
  - exists (x :: l), post. reflexivity.
Qed.

(** A stripped, non-empty string that occurs in a buffer still occurs in
    the stripped buffer. *)
Lemma occurs_in_strip (p s : str) :
  p <> [] -> lstrip p = p -> rstrip p = p ->
  occurs_in p s -> occurs_in p (strip s).
Proof.
  intros Hne Hl Hr H. unfold strip, rstrip.
  apply (occurs_in_lstrip p s Hne Hl) in H.
  apply occurs_in_rev in H.
  assert (lstrip (rev p) = rev p) as Hl'.
  { unfold rstrip in Hr. rewrite <- Hr at 2. rewrite rev_involutive. reflexivity. }
  assert (rev p <> []) as Hne'.
  { intros E. apply Hne. rewrite <- (rev_involutive p), E. reflexivity. }
  apply (occurs_in_lstrip (rev p) _ Hne' Hl') in H.
  apply occurs_in_rev in H. rewrite rev_involutive in H. exact H.
Qed.

End StringFacts.

(** ** More of the chunker *)

Module ChunkerMore.
Import DocumentProcessor StringFacts.

(** *** The characters of cleaned text *)

Lemma ws_run_positive (c : Z) (r : str) :
  isspace c = true ->
  ws_run (c :: r) = Some (S (length r - length (lstrip r))).
Proof.
  intros E. unfold ws_run. rewrite E. simpl lstrip. rewrite E.
  f_equal. simpl length. pose proof (ChunkerFacts.lstrip_length r). lia.
Qed.

(** After the first substitution the only whitespace is the space. *)
Lemma collapsed_whitespace (s : str) (skip : nat) :
  Forall (fun c => isspace c = true -> c = 0x20)
    (re_sub_from ws_run [0x20] skip s).
Proof.
  revert skip. induction s as [|c r IH]; intros skip; cbn [re_sub_from];
    [constructor|].
  destruct skip; [|apply IH].
  destruct (isspace c) eqn:E.
  - rewrite (ws_run_positive c r E).
    constructor; [reflexivity|apply IH].
  - unfold ws_run. rewrite E. constructor; [congruence|apply IH].
Qed.

Lemma cleaned_characters (text : str) :
  Forall (fun c => allowed c = true
                   /\ (isspace c = true -> c = 0x20 \/ c = 0x0A))
    (clean_text text).
Proof.
  unfold clean_text. apply strip_closed.
  apply TransliteratorFacts.re_sub_from_closed;
    [constructor; [split; [reflexivity|intros _; right; reflexivity]|constructor]|].
  apply TransliteratorFacts.re_sub_from_closed; [constructor|].
  rewrite ChunkerFacts.fix_vowel_marks_id.
  apply Forall_and; [apply ChunkerFacts.filter_keeps_allowed|].
  apply TransliteratorFacts.re_sub_from_closed; [constructor|].
  generalize (collapsed_whitespace text 0).
  apply Forall_impl. intros c H E. left. exact (H E).
Qed.

(** X1: cleaned text holds only characters of the allowed set, its only
    whitespace is the space and the newline, and it neither starts nor
    ends with whitespace. *)
Theorem clean_text_characters :
  forall text : str,
    Forall (fun c => allowed c = true
                     /\ (isspace c = true -> c = 0x20 \/ c = 0x0A))
      (clean_text text)
    /\ lstrip (clean_text text) = clean_text text
    /\ rstrip (clean_text text) = clean_text text.
Proof.
  intros text. split; [apply cleaned_characters|].
  unfold clean_text. split; [apply lstrip_strip|apply rstrip_strip].
Qed.

(** *** The characters of a chunk *)

Lemma re_split_from_closed (P : Z -> Prop) (delim : Z -> bool) (s cur : str) :
  Forall P cur -> Forall P s -> Forall (Forall P) (re_split_from delim cur s).
Proof.
  revert cur. induction s as [|c r IH]; intros cur Hcur Hs; simpl.
  - repeat constructor. exact Hcur.
  - inversion Hs as [|? ? Hc Hr]; subst.
    destruct (delim c).
    + constructor; [exact Hcur|]. apply IH; [constructor|exact Hr].
    + apply IH; [|exact Hr].
      apply Forall_app. split; [exact Hcur|repeat constructor; exact Hc].
Qed.

Lemma re_split_from_no_delim (delim : Z -> bool) (s cur : str) :
  Forall (fun c => delim c = false) cur ->
  Forall (Forall (fun c => delim c = false)) (re_split_from delim cur s).
Proof.
  revert cur. induction s as [|c r IH]; intros cur Hcur; simpl.
  - repeat constructor. exact Hcur.
  - destruct (delim c) eqn:E.
    + constructor; [exact Hcur|]. apply IH. constructor.
    + apply IH. apply Forall_app. split; [exact Hcur|repeat constructor; exact E].
Qed.

Lemma sentences_closed (P : Z -> Prop) (text : str) :
  Forall (Forall P) (re_split sentence_end text) ->
  Forall (Forall P) (sentences_of text).
Proof.
  intros H. unfold sentences_of. apply Forall_map.
  apply Forall_forall. intros s Hin. apply filter_In in Hin.
  apply strip_closed. rewrite Forall_forall in H. apply H. tauto.
Qed.

Lemma skipn_closed {A} (P : A -> Prop) (n : nat) (l : list A) :
  Forall P l -> Forall P (skipn n l).
Proof.
  revert l. induction n as [|n IH]; intros l H; [exact H|].
  destruct H; simpl; [constructor|apply IH; assumption].
Qed.

Lemma pack_closed (P : Z -> Prop) (self : t) (st : list str * str) (sentence : str) :
  P 0x20 -> Forall P sentence ->
  made_of P st -> made_of P (pack self st sentence).
Proof.
  intros Hsp Hs [Hchunks Hcur]. destruct st as [chunks current].
  simpl in Hchunks, Hcur. unfold pack.
  assert (Forall (Forall P) (chunks ++ [strip current])) as Hemit.
  { apply Forall_app. split; [exact Hchunks|].
    repeat constructor. apply strip_closed, Hcur. }
  destruct (len current + len sentence >? chunk_size self).
  - destruct (truthy current); [|split; assumption].
    destruct (chunk_overlap self >? 0); [|split; assumption].
    split; [exact Hemit|]. simpl snd.
    apply Forall_app. split.
    + apply TransliteratorFacts.join_closed; [repeat constructor; exact Hsp|].
      apply skipn_closed.
      apply TransliteratorFacts.split_from_closed; [constructor|exact Hcur].
    + constructor; assumption.
  - split; [exact Hchunks|]. simpl snd.
    apply Forall_app. split; [exact Hcur|].
    destruct (truthy current); [constructor|]; assumption.
Qed.

Lemma raw_chunks_closed (P : Z -> Prop) (self : t) (text : str) :
  P 0x20 -> Forall (Forall P) (sentences_of text) ->
  Forall (Forall P) (raw_chunks self text).
Proof.
  intros Hsp Hall. unfold raw_chunks.
  assert (forall st, made_of P st ->
                     made_of P (fold_left (pack self) (sentences_of text) st)) as Hfold.
  { induction Hall as [|s rest Hs _ IH]; intros st Hst; [exact Hst|].
    simpl. apply IH. apply pack_closed; assumption. }
  specialize (Hfold ([], [])).
  destruct (fold_left (pack self) (sentences_of text) ([], [])) as [chunks current].
  destruct Hfold as [Hchunks Hcur]; [split; constructor|].
  simpl in Hchunks, Hcur.
  destruct (truthy (strip current)); [|exact Hchunks].
  apply Forall_app. split; [exact Hchunks|].
  repeat constructor. apply strip_closed, Hcur.
Qed.

Lemma create_chunks_closed (P : Z -> Prop) (self : t) (text : str) :
  P 0x20 -> Forall (Forall P) (sentences_of text) ->
  Forall (Forall P) (create_chunks self text).
Proof.
  intros Hsp Hall. unfold create_chunks.
  destruct (truthy text); [|constructor].
  apply Forall_forall. intros chunk Hin. apply filter_In in Hin.
  pose proof (raw_chunks_closed P self text Hsp Hall) as H.
  rewrite Forall_forall in H. apply H. tauto.
Qed.

(** X2: no chunk holds a sentence delimiter: the full stops, exclamation
    marks, question marks and U+17D4 signs of the text are in no chunk. *)
Theorem chunks_hold_no_sentence_end :
  forall (self : t) (text : str),
    Forall (Forall (fun c => sentence_end c = false)) (create_chunks self text).
Proof.
  intros self text. apply create_chunks_closed; [reflexivity|].
  apply sentences_closed. apply re_split_from_no_delim. constructor.
Qed.

(** X3: every character of a chunk is a space or a character of the
    text. *)
Theorem chunks_made_of_text :
  forall (self : t) (text : str),
    Forall (Forall (fun c => c = 0x20 \/ In c text)) (create_chunks self text).
Proof.
  intros self text. apply create_chunks_closed; [left; reflexivity|].
  apply sentences_closed. apply re_split_from_closed; [constructor|].
  apply Forall_forall. intros c Hin. right. exact Hin.
Qed.

(** *** Chunks are stripped *)

Lemma pack_stripped (self : t) (st : list str * str) (sentence : str) :
  Forall (fun chunk => strip chunk = chunk) (fst st) ->
  Forall (fun chunk => strip chunk = chunk) (fst (pack self st sentence)).
Proof.
  destruct st as [chunks current]. simpl fst. intros H. unfold pack.
  assert (Forall (fun chunk => strip chunk = chunk) (chunks ++ [strip current])).
  { apply Forall_app. split; [exact H|]. repeat constructor. apply strip_idem. }
  destruct (len current + len sentence >? chunk_size self); [|exact H].
  destruct (truthy current); [|exact H].
  destruct (chunk_overlap self >? 0); assumption.
Qed.

Lemma create_chunks_stripped (self : t) (text : str) :
  Forall (fun chunk => strip chunk = chunk) (create_chunks self text).
Proof.
  unfold create_chunks. destruct (truthy text); [|constructor].
  apply Forall_forall. intros chunk Hin. apply filter_In in Hin.
  destruct Hin as [Hin _]. revert chunk Hin. apply Forall_forall.
  unfold raw_chunks.
  assert (forall st, Forall (fun chunk => strip chunk = chunk) (fst st) ->
            Forall (fun chunk => strip chunk = chunk)
              (fst (fold_left (pack self) (sentences_of text) st))) as Hfold.
  { induction (sentences_of text) as [|s rest IH]; intros st Hst; [exact Hst|].
    simpl. apply IH. apply pack_stripped. exact Hst. }
  specialize (Hfold ([], []) (Forall_nil _)).
  destruct (fold_left (pack self) (sentences_of text) ([], [])) as [chunks current].
  simpl in Hfold.
  destruct (truthy (strip current)); [|exact Hfold].
  apply Forall_app. split; [exact Hfold|]. repeat constructor. apply strip_idem.
Qed.

(** X4: a chunk neither starts nor ends with whitespace. *)
Theorem chunks_are_stripped :
  forall (self : t) (text : str),
    Forall (fun chunk => lstrip chunk = chunk /\ rstrip chunk = chunk)
      (create_chunks self text).
Proof.
  intros self text. generalize (create_chunks_stripped self text).
  apply Forall_impl. intros chunk H.
  rewrite <- H. split; [apply lstrip_strip|apply rstrip_strip].
Qed.

(** *** No sentence is lost *)

Lemma sentence_shape (text s : str) :
  In s (sentences_of text) -> s <> [] /\ lstrip s = s /\ rstrip s = s.
Proof.
  unfold sentences_of. intros Hin.
  apply in_map_iff in Hin. destruct Hin as [x [<- Hx]].
  apply filter_In in Hx. destruct Hx as [_ Hx].
  split; [destruct (strip x); [discriminate|discriminate]|].
  split; [apply lstrip_strip|apply rstrip_strip].
Qed.

Lemma occurs_in_nil (s : str) : s <> [] -> ~ occurs_in s [].
Proof.
  intros Hne [pre [post H]]. destruct pre; [destruct s|]; simpl in H;
    congruence.
Qed.

Lemma pack_keeps_covered (self : t) (st : list str * str) (sentence s : str) :
  s <> [] -> lstrip s = s -> rstrip s = s ->
  covers st s -> covers (pack self st sentence) s.
Proof.
  intros Hne Hl Hr Hcov. destruct st as [chunks current]. unfold pack.
  assert (covers (chunks ++ [strip current], sentence) s
          /\ forall b, covers (chunks ++ [strip current], b) s) as [_ Hemit].
  { assert (forall b, covers (chunks ++ [strip current], b) s) as H.
    { intros b. left. destruct Hcov as [[chunk [Hin Hocc]]|Hocc]; simpl in *.
      - exists chunk. split; [apply in_or_app; left; exact Hin|exact Hocc].
      - exists (strip current). split; [apply in_or_app; right; left; reflexivity|].
        apply occurs_in_strip; assumption. }
    split; [apply H|exact H]. }
  destruct (len current + len sentence >? chunk_size self).
  - destruct current as [|c r]; simpl truthy; cbv iota.
    + destruct Hcov as [Hcov|Hocc]; [left; exact Hcov|].
      exfalso. exact (occurs_in_nil s Hne Hocc).
    + destruct (chunk_overlap self >? 0); apply Hemit.
  - destruct Hcov as [Hcov|Hocc]; [left; exact Hcov|]. right. simpl snd in *.
    exact (occurs_in_app s current [] _ Hocc).
Qed.

Lemma pack_covers_sentence (self : t) (st : list str * str) (sentence : str) :
  covers (pack self st sentence) sentence.
Proof.
  destruct st as [chunks current]. unfold pack. right.
  destruct (len current + len sentence >? chunk_size self).
  - destruct (truthy current); [|apply occurs_in_refl].
    destruct (chunk_overlap self >? 0); [|apply occurs_in_refl]. simpl snd.
    exists (join [32] (overlap_words self (split current)) ++ [32]), [].
    rewrite app_nil_r, <- app_assoc. reflexivity.
  - simpl snd. destruct (truthy current).
    + exists (current ++ [32]), []. rewrite app_nil_r, <- app_assoc. reflexivity.
    + exists current, []. rewrite app_nil_r. reflexivity.
Qed.

Lemma fold_pack_covers (self : t) (text : str) (sentences : list str) :
  (forall s, In s sentences -> In s (sentences_of text)) ->
  forall (st : list str * str) (s : str),
    In s (sentences_of text) ->
    covers st s \/ In s sentences ->
    covers (fold_left (pack self) sentences st) s.
Proof.
  induction sentences as [|x rest IH]; intros Hsub st s Hs Hcov.
  - destruct Hcov as [Hcov|[]]. exact Hcov.
  - simpl. apply IH; [intros y Hy; apply Hsub; right; exact Hy|exact Hs|].
    destruct (sentence_shape text s Hs) as [Hne [Hl Hr]].
    destruct Hcov as [Hcov|[->|Hin]].
    + left. apply pack_keeps_covered; assumption.
    + left. apply pack_covers_sentence.
    + right. exact Hin.
Qed.

(** Before the length filter every sentence lies in some chunk. *)
Lemma raw_chunks_cover (self : t) (text s : str) :
  In s (sentences_of text) ->
  exists chunk, In chunk (raw_chunks self text) /\ occurs_in s chunk.
Proof.
  intros Hs. unfold raw_chunks.
  pose proof (fold_pack_covers self text (sentences_of text) (fun _ H => H)
                ([], []) s Hs (or_intror Hs)) as Hcov.
  destruct (fold_left (pack self) (sentences_of text) ([], [])) as [chunks current].
  destruct (sentence_shape text s Hs) as [Hne [Hl Hr]].
  destruct Hcov as [[chunk [Hin Hocc]]|Hocc]; simpl in *.
  - exists chunk. split; [|exact Hocc].
    destruct (truthy (strip current)); [apply in_or_app; left|]; exact Hin.
  - apply (occurs_in_strip s current Hne Hl Hr) in Hocc.
    destruct (strip current) as [|c r] eqn:E.
    + exfalso. exact (occurs_in_nil s Hne Hocc).
    + exists (c :: r). split; [apply in_or_app; right; left; reflexivity|exact Hocc].
Qed.

(** X5: a sentence of more than 50 characters is never lost: it is found,
    whole, in one of the chunks that are returned. *)
Theorem long_sentence_is_in_a_chunk :
  forall (self : t) (text s : str),
    In s (sentences_of text) ->
    50 < len s ->
    exists chunk, In chunk (create_chunks self text) /\ contains s chunk = true.
Proof.
  intros self text s Hs Hlen.
  destruct (raw_chunks_cover self text s Hs) as [chunk [Hin Hocc]].
  exists chunk. split; [|apply contains_occurs; exact Hocc].
  unfold create_chunks. destruct text as [|c r]; [destruct Hs|].
  simpl truthy. cbv iota. apply filter_In. split; [exact Hin|].
  apply Z.gtb_lt. pose proof (occurs_in_len s chunk Hocc). lia.
Qed.

Lemma long_sentence_is_in_a_chunk_witness :
  exists chunk,
    In chunk (create_chunks {| chunk_size := 40; chunk_overlap := 20 |}
                (u8 "Short one. A lease liability is measured at the present value of the payments! Done?"))
    /\ contains (u8 "A lease liability is measured at the present value of the payments")
         chunk = true.
Proof.
  apply long_sentence_is_in_a_chunk.
  - vm_compute. right. left. reflexivity.
  - vm_compute. reflexivity.
Defined.

(** *** The two bounds at work *)

Lemma create_chunks_without_overlap_witness :
  Forall (fun chunk => len chunk <= 61)
    (create_chunks {| chunk_size := 60; chunk_overlap := 0 |}
       (u8 "assets are resources of a firm. liabilities are its debts owed. equity is what is left for the owners of the firm.")).
Proof.
  apply (ChunkerFacts.create_chunks_without_overlap
           {| chunk_size := 60; chunk_overlap := 0 |}).
  - simpl. lia.
  - simpl. lia.
  - vm_compute. repeat constructor; discriminate.
Defined.

Lemma pack_seeds_last_words_witness :
  pack {| chunk_size := 30; chunk_overlap := 20 |}
    ([], u8 "assets are resources of a firm") (u8 "liabilities are debts")
  = ([u8 "assets are resources of a firm"], u8 "a firm liabilities are debts").
Proof.
  rewrite (ChunkerFacts.pack_seeds_last_words
             {| chunk_size := 30; chunk_overlap := 20 |} []
             (u8 "assets are resources of a firm") (u8 "liabilities are debts")).
  - vm_compute. reflexivity.
  - reflexivity.
  - vm_compute. reflexivity.
  - vm_compute. discriminate.
Defined.

(** *** Key terms *)

Lemma fold_append_filter {A} (f : A -> bool) (l acc : list A) :
  fold_left (fun found x => if f x then found ++ [x] else found) l acc
  = acc ++ filter f l.
Proof.
  revert acc. induction l as [|x l IH]; intros acc; simpl.
  - rewrite app_nil_r. reflexivity.
  - rewrite IH. destruct (f x); [rewrite <- app_assoc|]; reflexivity.
Qed.

Lemma extract_key_terms_filter (text : str) :
  extract_key_terms text = filter (fun term => contains term text) key_terms.
Proof.
  unfold extract_key_terms. generalize key_terms. intros terms.
  rewrite (fold_append_filter (fun term => contains term text) terms []).
  reflexivity.
Qed.

(** X6: in cleaned text no term spelled with the zero-width joiner U+200D
    is ever found, because cleaning removes the joiner; seven of the 34 key
    terms are spelled with it. *)
Theorem joiner_terms_are_not_found_in_cleaned_text :
  (forall text term : str,
      In 0x200D term -> ~ In term (extract_key_terms (clean_text text)))
  /\ length (filter (fun term => existsb (Z.eqb 0x200D) term) key_terms) = 7%nat.
Proof.
  split; [|vm_compute; reflexivity].
  intros text term Hj Hin.
  rewrite extract_key_terms_filter in Hin. apply filter_In in Hin.
  destruct Hin as [_ Hc]. apply contains_occurs in Hc.
  pose proof (occurs_in_closed _ _ _ Hc (cleaned_characters text)) as Hall.
  rewrite Forall_forall in Hall. destruct (Hall _ Hj) as [Hallowed _].
  discriminate Hallowed.
Qed.

Lemma joiner_terms_are_not_found_in_cleaned_text_witness :
  ~ In (u8 "මූල්‍ය") (extract_key_terms (clean_text (u8 "මූල්‍ය ප්‍රකාශන")))
  /\ In (u8 "මූල්‍ය") (extract_key_terms (u8 "මූල්‍ය ප්‍රකාශන")).
Proof.
  split.
  - apply (proj1 joiner_terms_are_not_found_in_cleaned_text).
    vm_compute. do 4 right. left. reflexivity.
  - vm_compute. left. reflexivity.
Defined.

(** *** Ingestion *)

Lemma read_pages_blank (pages : list (option str)) (page_num : nat) (text : str) :
  Forall (fun page => match page with
                      | Some page_text => strip page_text = []
                      | None => True
                      end) pages ->
  read_pages pages page_num text = text.
Proof.
  intros H. revert page_num. induction H as [|page rest Hp _ IH]; intros n;
    simpl; [reflexivity|].
  destruct page as [page_text|]; [|apply IH].
  rewrite Hp. simpl. apply IH.
Qed.

(** X7: a file that cannot be read, and a file in which every page fails
    or has nothing but whitespace, give no chunk. *)
Theorem blank_document_gives_no_chunk :
  forall (self : t) (pages : list (option str)),
    extract_text_from_pdf self None = []
    /\ (Forall (fun page => match page with
                            | Some page_text => strip page_text = []
                            | None => True
                            end) pages ->
        extract_text_from_pdf self (Some pages) = []).
Proof.
  intros self pages. split; [reflexivity|].
  intros H. unfold extract_text_from_pdf.
  rewrite (read_pages_blank pages 0 [] H). reflexivity.
Qed.

Lemma blank_document_gives_no_chunk_witness :
  extract_text_from_pdf init (Some [Some (u8 "  "); None; Some [0x0A; 0x09]]) = [].
Proof.
  apply (proj2 (blank_document_gives_no_chunk init
                  [Some (u8 "  "); None; Some [0x0A; 0x09]])).
  repeat constructor.
Defined.

(** X8: every chunk that ingestion returns is longer than 50 characters,
    is made of allowed characters only, holds no sentence delimiter and
    neither starts nor ends with whitespace. *)
Theorem ingested_chunks_are_clean :
  forall (self : t) (file : option (list (option str))),
    Forall (fun chunk =>
              50 < len chunk
              /\ Forall (fun c => allowed c = true /\ sentence_end c = false) chunk
              /\ lstrip chunk = chunk /\ rstrip chunk = chunk)
      (extract_text_from_pdf self file).
Proof.
  intros self [pages|]; [|constructor]. unfold extract_text_from_pdf.
  destruct (negb (truthy (strip (read_pages pages 0 [])))); [constructor|].
  set (cleaned := clean_text (read_pages pages 0 [])).
  assert (Forall (Forall (fun c => allowed c = true)) (create_chunks self cleaned)) as Ha.
  { apply create_chunks_closed; [reflexivity|].
    apply sentences_closed, re_split_from_closed; [constructor|].
    generalize (cleaned_characters (read_pages pages 0 [])).
    apply Forall_impl. tauto. }
  assert (Forall (Forall (fun c => sentence_end c = false)) (create_chunks self cleaned)) as Hd.
  { apply create_chunks_closed; [reflexivity|].
    apply sentences_closed, re_split_from_no_delim. constructor. }
  assert (Forall (fun chunk => strip chunk = chunk) (create_chunks self cleaned)) as Hs.
  { apply create_chunks_stripped. }
  apply Forall_forall. intros chunk Hin.
  rewrite Forall_forall in Ha, Hd, Hs.
  specialize (Ha _ Hin). specialize (Hd _ Hin). specialize (Hs _ Hin).
  split; [|split; [|rewrite <- Hs; split; [apply lstrip_strip|apply rstrip_strip]]].
  - unfold create_chunks in Hin. destruct (truthy cleaned); [|destruct Hin].
    apply filter_In in Hin. destruct Hin as [_ Hlen].
    apply Z.gtb_lt in Hlen. lia.
  - apply Forall_and; assumption.
Qed.

End ChunkerMore.

(** ** More of the transliterator *)

Module TransliteratorMore.
Import SinhalaTransliterator StringFacts TransliteratorFacts.

(** *** The dictionary *)

Lemma dict_get_set_same (d : dict) (k v : str) :
  dict_get (dict_set d k v) k = Some v.
Proof.
  induction d as [|[k' v'] rest IH]; simpl.
  - rewrite str_eqb_refl. reflexivity.
  - destruct (str_eqb k k') eqn:E; simpl; rewrite E; [reflexivity|exact IH].
Qed.

Lemma dict_get_set_other (d : dict) (k v k' : str) :
  k' <> k -> dict_get (dict_set d k v) k' = dict_get d k'.
Proof.
  intros Hne. induction d as [|[kd vd] rest IH]; simpl.
  - destruct (str_eqb k' k) eqn:E; [|reflexivity].
    apply str_eqb_eq in E. congruence.
  - destruct (str_eqb k kd) eqn:E; simpl.
    + apply str_eqb_eq in E. subst kd.
      destruct (str_eqb k' k) eqn:E'; [|reflexivity].
      apply str_eqb_eq in E'. congruence.
    + destruct (str_eqb k' kd); [reflexivity|exact IH].
Qed.

Lemma dict_set_keys (d : dict) (k v : str) :
  map fst (dict_set d k v)
  = if dict_mem d k then map fst d else map fst d ++ [k].
Proof.
  unfold dict_mem. induction d as [|[kd vd] rest IH]; simpl; [reflexivity|].
  destruct (str_eqb k kd); simpl; [reflexivity|].
  rewrite IH. destruct (dict_get rest k); reflexivity.
Qed.

Section Tables.
Context {U : Unicode}.

(** X9: after [add_custom_mapping(english, sinhala)] the lower-cased key is
    mapped to [sinhala] and every token that strips to that key is
    translated to it; every other key keeps its value, the keys keep their
    order with a new key last, and the phrases are untouched. *)
Theorem custom_mapping_is_looked_up :
  forall (self : t) (english sinhala : str),
    exists self' : t,
      snd (add_custom_mapping_logged self english sinhala) = Ok self'
      /\ dict_get (transliteration_map self') (lower english) = Some sinhala
      /\ (forall word, clean word = lower english ->
                       translate_word self' word = ret sinhala)
      /\ (forall key, key <> lower english ->
                      dict_get (transliteration_map self') key
                      = dict_get (transliteration_map self) key)
      /\ map fst (transliteration_map self')
         = (if dict_mem (transliteration_map self) (lower english)
            then map fst (transliteration_map self)
            else map fst (transliteration_map self) ++ [lower english])
      /\ phrase_map self' = phrase_map self.
Proof.
  intros self english sinhala.
  exists (add_custom_mapping self english sinhala).
  split; [reflexivity|].
  split; [apply dict_get_set_same|].
  split.
  - intros word Hw. unfold translate_word, dict_mem, dict_getitem.
    rewrite Hw. simpl transliteration_map. rewrite dict_get_set_same. reflexivity.
  - split; [intros key Hne; apply dict_get_set_other; exact Hne|].
    split; [apply dict_set_keys|reflexivity].
Qed.

(** *** Exact lookup *)

Lemma clean_is_word (word : str) (skip : nat) :
  Forall (fun c => isword c = true) (re_sub_from nonword1 [] skip word).
Proof.
  revert skip. induction word as [|c r IH]; intros skip; simpl; [constructor|].
  destruct skip; [|apply IH].
  destruct (isword c) eqn:E; simpl; [constructor; [exact E|apply IH]|apply IH].
Qed.

(** X10: a stripped token holds word characters only, so a key with a
    character that is not one, a space or a hyphen for instance, is never
    found by the exact lookup. *)
Theorem key_with_punctuation_is_never_looked_up :
  forall (word key : str) (c : Z),
    In c key -> isword c = false -> clean word <> key.
Proof.
  intros word key c Hin Hc Heq.
  pose proof (clean_is_word word 0) as H.
  change (re_sub_from nonword1 [] 0 word) with (clean word) in H.
  rewrite Heq, Forall_forall in H. apply H in Hin. congruence.
Qed.

(** *** Suggestions *)

Lemma contains_or_startswith (p s : str) :
  contains p s || startswith p s = contains p s.
Proof.
  destruct (contains p s) eqn:E; [reflexivity|]. simpl.
  destruct (startswith p s) eqn:E'; [|reflexivity].
  apply startswith_contains in E'. congruence.
Qed.

Lemma suggestions_fold (p : str) (d : dict) (acc : list str) :
  fold_left
    (fun suggestions (entry : str * str) =>
       let '(eng_term, sin_term) := entry in
       if contains p eng_term || startswith p eng_term
       then suggestions ++ [sin_term] else suggestions)
    d acc
  = acc ++ map snd (filter (fun entry : str * str => contains p (fst entry)) d).
Proof.
  revert acc. induction d as [|[eng_term sin_term] rest IH]; intros acc; simpl.
  - rewrite app_nil_r. reflexivity.
  - rewrite contains_or_startswith, IH.
    destruct (contains p eng_term); [rewrite <- app_assoc|]; reflexivity.
Qed.

(** X11: the suggestions are the values of the first five entries, in
    dictionary order, whose key contains the lower-cased query; the test
    [startswith] adds nothing to the test [in]. *)
Theorem suggestions_are_first_five_containing :
  forall (self : t) (partial_query : str),
    suggest_sinhala_terms self partial_query
    = firstn 5 (map snd (filter (fun entry : str * str =>
                                   contains (lower partial_query) (fst entry))
                           (transliteration_map self)))
    /\ (length (suggest_sinhala_terms self partial_query) <= 5)%nat.
Proof.
  intros self partial_query.
  unfold suggest_sinhala_terms. rewrite suggestions_fold. simpl app.
  split; [reflexivity|apply firstn_le_length].
Qed.

(** X12: with tables whose [lower] keeps the empty string empty, the empty
    query is in every key, and the suggestions are the first five values of
    the dictionary. *)
Theorem empty_query_suggests_first_five :
  forall self : t,
    lower [] = [] ->
    suggest_sinhala_terms self [] = firstn 5 (map snd (transliteration_map self)).
Proof.
  intros self Hlower. unfold suggest_sinhala_terms.
  rewrite suggestions_fold, Hlower. simpl app. f_equal. f_equal.
  generalize (transliteration_map self). intros d.
  induction d as [|[eng_term sin_term] rest IH]; simpl; [reflexivity|].
  replace (contains [] eng_term) with true by (destruct eng_term; reflexivity).
  rewrite IH. reflexivity.
Qed.

(** *** The score and the result *)

Lemma count_class_bounds (cls : Z -> bool) (s : str) :
  0 <= count_class cls s <= len s.
Proof.
  unfold count_class, len. pose proof (filter_length_le cls s). lia.
Qed.

(** X14: the score is a share: it lies between 0 and 1. *)
Theorem translation_score_is_a_share :
  forall original translated : str,
    exists score : Q,
      _translation_score original translated = ret score
      /\ (0 <= score)%Q /\ (score <= 1)%Q.
Proof.
  intros original translated. eexists.
  split; [apply translation_score_ret|].
  destruct (str_eqb original translated); [split; discriminate|].
  pose proof (count_class_bounds is_sinhala translated) as [Hlo Hhi].
  destruct translated as [|c r]; [split; discriminate|].
  assert (0 < inject_Z (len (c :: r)))%Q as Hpos.
  { rewrite <- (Zlt_Qlt 0). rewrite ChunkerFacts.len_cons.
    pose proof (ChunkerFacts.len_nonneg r). lia. }
  split.
  - apply Qle_shift_div_l; [exact Hpos|].
    rewrite Qmult_0_l. rewrite <- (Zle_Qle 0). exact Hlo.
  - apply Qle_shift_div_r; [exact Hpos|].
    rewrite Qmult_1_l. rewrite <- Zle_Qle. exact Hhi.
Qed.

(** X15: a query that is not empty never comes back empty, and a result
    that differs from the query holds at least one Sinhala character. *)
Theorem result_is_never_empty :
  forall (self : t) (query value : str),
    query <> [] ->
    snd (process_query self query) = Ok value ->
    value <> []
    /\ (value <> query -> exists c, In c value /\ is_sinhala c = true).
Proof.
  intros self query value Hq. unfold process_query.
  destruct query as [|q0 qr] eqn:Eq; [congruence|]. rewrite <- Eq in *.
  replace (negb (truthy query)) with false by (rewrite Eq; reflexivity).
  rewrite is_sinhala_text_ret, bind_ret.
  match goal with |- context [if ?b then ret query else _] => destruct b end;
    [intros [= <-]; split; [exact Hq|congruence]|].
  rewrite candidate_ret, bind_ret, translation_score_ret, bind_ret.
  set (result := join [32] _).
  destruct (str_eqb query result) eqn:Esame;
    [intros [= <-]; split; [exact Hq|congruence]|].
  destruct (Qgtb _ _) eqn:Eacc;
    [|intros [= <-]; split; [exact Hq|congruence]].
  intros [= <-]. apply Qgtb_lt in Eacc.
  assert (0 < count_class is_sinhala result) as Hcount.
  { destruct (Z.lt_ge_cases 0 (count_class is_sinhala result)) as [H|H];
      [exact H|exfalso].
    pose proof (count_class_bounds is_sinhala result) as [Hlo _].
    replace (count_class is_sinhala result) with 0 in Eacc by lia.
    unfold Qdiv in Eacc. rewrite Qmult_0_l in Eacc. discriminate Eacc. }
  unfold count_class, len in Hcount.
  destruct (filter is_sinhala result) as [|c r] eqn:Ef; [simpl in Hcount; lia|].
  assert (In c (filter is_sinhala result)) as Hin by (rewrite Ef; left; reflexivity).
  apply filter_In in Hin.
  split; [|intros _; exists c; exact Hin].
  destruct result; [destruct Hin as [[] _]|discriminate].
Qed.

End Tables.

(** *** Partial matches *)

(** X13: for a word of more than three characters [_find_partial_match]
    returns the value of the first entry, in dictionary order, whose key
    lies in the word or holds it. *)
Theorem first_related_entry_wins :
  forall (self : t) (word : str) (pre post : dict) (key value : str),
    3 < len word ->
    transliteration_map self = pre ++ (key, value) :: post ->
    Forall (fun entry : str * str => related (fst entry) word = false) pre ->
    related key word = true ->
    _find_partial_match self word = value.
Proof.
  intros self word pre post key value Hlen Hmap Hpre Hkey.
  unfold _find_partial_match. rewrite Hmap. clear Hmap.
  induction Hpre as [|[k v] rest Hk _ IH]; simpl.
  - unfold related in Hkey. rewrite Hkey.
    replace (len word >? 3) with true by (symmetry; apply Z.gtb_lt; lia).
    reflexivity.
  - unfold related in Hk. simpl in Hk. rewrite Hk. exact IH.
Qed.

Lemma first_related_entry_wins_witness :
  _find_partial_match init (u8 "cashflow") = u8 "මුදල්".
Proof.
  apply (first_related_entry_wins init (u8 "cashflow")
           (firstn 31 (transliteration_map init))
           (skipn 32 (transliteration_map init))
           (u8 "cash") (u8 "මුදල්")).
  - vm_compute. reflexivity.
  - vm_compute. reflexivity.
  - vm_compute. repeat constructor.
  - vm_compute. reflexivity.
Defined.

Lemma result_is_never_empty_witness :
  u8 "මුදල් ප්‍රවාහ" <> [].
Proof.
  apply (result_is_never_empty (U := BasicLatinSinhala) init
           (u8 "Cash flow") (u8 "මුදල් ප්‍රවාහ")).
  - vm_compute. discriminate.
  - vm_compute. reflexivity.
Defined.

Lemma custom_mapping_is_looked_up_witness :
  translate_word (U := BasicLatinSinhala)
    (add_custom_mapping (U := BasicLatinSinhala) init (u8 "Custom") (u8 "විශේෂ"))
    (u8 "custom,")
  = ret (u8 "විශේෂ").
Proof.
  destruct (custom_mapping_is_looked_up (U := BasicLatinSinhala) init
              (u8 "Custom") (u8 "විශේෂ")) as [self' [Hs [_ [Hw _]]]].
  injection Hs as <-. apply Hw. vm_compute. reflexivity.
Defined.

Lemma key_with_punctuation_is_never_looked_up_witness :
  clean (U := BasicLatinSinhala) (u8 "cash-flow") <> u8 "cash-flow".
Proof.
  apply (key_with_punctuation_is_never_looked_up (U := BasicLatinSinhala)
           (u8 "cash-flow") (u8 "cash-flow") 0x2D).
  - vm_compute. do 4 right. left. reflexivity.
  - vm_compute. reflexivity.
Defined.

Lemma empty_query_suggests_first_five_witness :
  suggest_sinhala_terms (U := BasicLatinSinhala) init []
  = firstn 5 (map snd (transliteration_map init)).
Proof.
  apply (empty_query_suggests_first_five (U := BasicLatinSinhala) init).
  reflexivity.
Defined.

End TransliteratorMore.

(** ** The batches handed to the index *)

Module VectorStoreFacts.
Import VectorStore.

Lemma prepare_from (documents : list Document) (acc : Prepared) :
  fold_left prepare_step documents acc
  = {| next := next acc + length documents;
       texts := texts acc ++ map text documents;
       metadatas := metadatas acc
                    ++ map (fun doc => {| meta_source := source doc;
                                          meta_chunk_id := chunk_id doc;
                                          meta_document_type := document_type doc |})
                         documents;
       ids := ids acc ++ map doc_id (seq (next acc) (length documents)) |}.
Proof.
  revert acc. induction documents as [|doc rest IH]; intros acc; simpl.
  - rewrite Nat.add_0_r, !app_nil_r. destruct acc; reflexivity.
  - rewrite IH. simpl. rewrite <- !app_assoc. simpl.
    f_equal. lia.
Qed.

Lemma prepare_lists (documents : list Document) :
  prepare documents
  = {| next := length documents;
       texts := map text documents;
       metadatas := map (fun doc => {| meta_source := source doc;
                                       meta_chunk_id := chunk_id doc;
                                       meta_document_type := document_type doc |})
                      documents;
       ids := map doc_id (seq 0 (length documents)) |}.
Proof. unfold prepare. rewrite prepare_from. reflexivity. Qed.

(** *** Windows of a list *)

Lemma windows_from {A} (size : nat) (l : list A) (m : nat) :
  (0 < size)%nat -> (length l <= m * size)%nat ->
  concat (map (fun i => window i size l) (map (fun j => j * size)%nat (seq 0 m))) = l.
Proof.
  intros Hsize. revert l. induction m as [|m IH]; intros l Hlen.
  - destruct l; [reflexivity|simpl in Hlen; lia].
  - rewrite <- cons_seq, <- seq_shift, !map_cons, !map_map.
    cbn [concat]. unfold window at 1. cbn [Nat.mul skipn].
    transitivity (firstn size l ++ skipn size l); [|apply firstn_skipn].
    f_equal.
    etransitivity;
      [|apply (IH (skipn size l)); rewrite length_skipn; simpl in Hlen; lia].
    rewrite map_map. f_equal. apply map_ext. intros j.
    unfold window. rewrite skipn_skipn. f_equal. f_equal. simpl. lia.
Qed.

Lemma batch_count (n : nat) :
  (n <= (n + batch_size - 1) / batch_size * batch_size)%nat
  /\ ((n + batch_size - 1) / batch_size * batch_size < n + batch_size)%nat.
Proof.
  unfold batch_size.
  pose proof (Nat.div_mod_eq (n + 100 - 1) 100).
  pose proof (Nat.mod_upper_bound (n + 100 - 1) 100). lia.
Qed.

Lemma windows_cover {A} (l : list A) :
  concat (map (fun i => window i batch_size l) (range_by (length l) batch_size)) = l.
Proof.
  unfold range_by. apply windows_from; [unfold batch_size; lia|].
  apply batch_count.
Qed.

Lemma window_length {A} (l : list A) (i : nat) :
  In i (range_by (length l) batch_size) ->
  length (window i batch_size l) = Nat.min batch_size (length l - i)
  /\ (i < length l)%nat.
Proof.
  unfold range_by. intros Hin. apply in_map_iff in Hin.
  destruct Hin as [j [<- Hj]]. apply in_seq in Hj.
  unfold window. rewrite length_firstn, length_skipn.
  split; [reflexivity|].
  pose proof (batch_count (length l)) as [_ H]. unfold batch_size in *. nia.
Qed.

Section Calls.
Variable E : Type.
Variable encode : list str -> list E.

Lemma add_ids_in_order (documents : list Document) :
  concat (map add_ids (add_calls E encode documents))
  = map doc_id (seq 0 (length documents)).
Proof.
  unfold add_calls. rewrite prepare_lists. simpl. rewrite map_map. simpl.
  pose proof (@windows_cover str (map doc_id (seq 0 (length documents)))) as Hi.
  rewrite !length_map in *. rewrite length_seq in Hi. exact Hi.
Qed.

(** X16: the [add] calls take the documents in order, nothing left out
    and nothing twice: the texts, the metadata and the ids of the calls,
    put end to end, are those of the documents, with the ids [doc_0],
    [doc_1] and so on.  Each call carries between 1 and 100 documents, with
    as many ids and metadata as texts, and the number of calls is the
    total that the progress log prints, [(len(texts) - 1) // 100 + 1]. *)
Theorem batches_partition_the_documents :
  forall documents : list Document,
    concat (map add_documents (add_calls E encode documents)) = map text documents
    /\ concat (map add_metadatas (add_calls E encode documents))
       = map (fun doc => {| meta_source := source doc;
                            meta_chunk_id := chunk_id doc;
                            meta_document_type := document_type doc |})
           documents
    /\ concat (map add_ids (add_calls E encode documents))
       = map doc_id (seq 0 (length documents))
    /\ Forall (fun call =>
                 (1 <= length (add_documents call) <= 100)%nat
                 /\ length (add_ids call) = length (add_documents call)
                 /\ length (add_metadatas call) = length (add_documents call))
         (add_calls E encode documents)
    /\ Z.of_nat (length (add_calls E encode documents))
       = (len documents - 1) / 100 + 1.
Proof.
  intros documents. unfold add_calls. rewrite prepare_lists. simpl.
  rewrite !map_map. simpl.
  pose proof (@windows_cover str (map text documents)) as Ht.
  pose proof (@windows_cover Metadata
                (map (fun doc => {| meta_source := source doc;
                                    meta_chunk_id := chunk_id doc;
                                    meta_document_type := document_type doc |})
                   documents)) as Hm.
  pose proof (@windows_cover str (map doc_id (seq 0 (length documents)))) as Hi.
  rewrite !length_map in *. rewrite length_seq in Hi.
  split; [exact Ht|]. split; [exact Hm|]. split; [exact Hi|]. split.
  - apply Forall_map, Forall_forall. intros i Hin. simpl.
    assert (In i (range_by (length (map text documents)) batch_size)) as H1
      by (rewrite length_map; exact Hin).
    assert (In i (range_by (length (map doc_id (seq 0 (length documents)))) batch_size)) as H2
      by (rewrite length_map, length_seq; exact Hin).
    assert (In i (range_by
                    (length (map (fun doc => {| meta_source := source doc;
                                                meta_chunk_id := chunk_id doc;
                                                meta_document_type := document_type doc |})
                               documents)) batch_size)) as H3
      by (rewrite length_map; exact Hin).
    apply window_length in H1, H2, H3.
    rewrite !length_map in *. rewrite length_seq in H2.
    destruct H1 as [-> Hlt]. destruct H2 as [-> _]. destruct H3 as [-> _].
    unfold batch_size. lia.
  - unfold range_by. rewrite ?length_map, ?length_seq.
    unfold batch_size, len.
    rewrite Nat2Z.inj_div.
    replace (Z.of_nat (length documents + 100 - 1))
      with (Z.of_nat (length documents) - 1 + 1 * 100) by lia.
    rewrite Z.div_add by lia. reflexivity.
Qed.

End Calls.

(** *** The ids *)

Lemma bytes_of_injective (a b : string) : bytes_of a = bytes_of b -> a = b.
Proof.
  unfold bytes_of. intros H.
  rewrite <- (string_of_list_ascii_of_string a),
          <- (string_of_list_ascii_of_string b).
  f_equal. revert H.
  generalize (list_ascii_of_string a) (list_ascii_of_string b).
  induction l as [|x l IH]; intros [|y l']; simpl; try discriminate;
    [reflexivity|].
  intros [= Hxy Hl]. apply Nat2Z.inj in Hxy.
  f_equal; [|apply IH; exact Hl].
  rewrite <- (ascii_nat_embedding x), <- (ascii_nat_embedding y), Hxy.
  reflexivity.
Qed.

Lemma str_of_nat_injective (i j : nat) : str_of_nat i = str_of_nat j -> i = j.
Proof.
  unfold str_of_nat. intros H. apply bytes_of_injective in H.
  assert (Some (Nat.to_uint i) = Some (Nat.to_uint j)) as Hu
    by (rewrite <- !DecimalString.NilEmpty.usu, H; reflexivity).
  injection Hu as Hu.
  rewrite <- (DecimalNat.Unsigned.of_to i), <- (DecimalNat.Unsigned.of_to j), Hu.
  reflexivity.
Qed.

Lemma doc_id_injective (i j : nat) : doc_id i = doc_id j -> i = j.
Proof.
  unfold doc_id. intros H. apply app_inv_head in H.
  apply str_of_nat_injective. exact H.
Qed.

(** X17: the ids of one [create_collection] are pairwise distinct, within a
    batch and across the batches. *)
Theorem ids_are_distinct :
  forall (E : Type) (encode : list str -> list E) (documents : list Document),
    NoDup (concat (map add_ids (add_calls E encode documents))).
Proof.
  intros E encode documents. rewrite add_ids_in_order.
  apply Finite.Injective_map_NoDup; [|apply seq_NoDup].
  intros i j. apply doc_id_injective.
Qed.

End VectorStoreFacts.
